(** * cudaq: the persistent job ledger and the GPU-aware dispatch loop

    A shallow embedding of [cudaq.py].  The dispatcher is a Python script
    that keeps a ledger of shell commands in a JSONL file, probes the
    operating system for the liveness of launched processes, queries NVML
    for free GPU memory and launches pending commands on the GPU with the
    most free memory.

    Modelling choices.
    - A job is the dict written by the dispatcher: six fixed keys.  The
      [status] stays a string, as in the source.
    - Free memory is [free / 1024 / 1024] of an integer byte count; it is
      kept as an exact rational.
    - [free_mem_dict] is a Python dict: an association list in insertion
      order, assignment to an existing key keeping its position.
    - Effects are threaded through a state-and-exception monad [M].  The
      state is the content of the two files plus the chronological trace of
      system calls; the answers of the operating system and of NVML come
      from an oracle that may depend on everything that happened before.
    - The body of [while True] is the function [cycle]; [run_cudaq] runs
      the start-up part and then a given number of cycles.
    - Messages printed to the console, the creation of the log directory
      and the opening of the log file are not recorded in the trace. *)

From Stdlib Require Import ZArith QArith String Ascii Bool Lia Lqa.
From stdpp Require Import base list strings sorting.

Open Scope Z_scope.

(** ** Data model *)

Record job := mkJob {
  command : string;
  status : string;
  pid : option Z;
  gpu_id : option Z;
  start_time : option string;
  log_file : option string;
}.

#[global] Instance job_eq_dec : EqDecision job.
Proof. solve_decision. Defined.

Record config := mkConfig {
  gpu_ids : option (list Z);
  min_free_mem_mb : Q;
  poll_interval : Z;
  log_dir : string;
}.

(** [DEFAULT_CONFIG], without the two file names (the files themselves are
    part of the [world] below). *)
Definition DEFAULT_CONFIG : config :=
  {| gpu_ids := None; min_free_mem_mb := 6000%Q; poll_interval := 60;
     log_dir := "./logs" |}.

Definition set_status (s : string) (j : job) : job :=
  {| command := command j; status := s; pid := pid j; gpu_id := gpu_id j;
     start_time := start_time j; log_file := log_file j |}.

(** A record is terminal when its status is [completed] or [failed]. *)
Definition non_terminal (j : job) : bool :=
  String.eqb (status j) "pending" || String.eqb (status j) "running".

(** ** System calls, the world and the monad *)

Definition WNOHANG : Z := 1.

Inductive event :=
| EKill (p sig : Z)                 (* os.kill(p, sig) *)
| EWaitpid (p options : Z)          (* os.waitpid(p, options) *)
| EPopen (cmd : string) (gpu : Z) (log : string)
                                    (* subprocess.Popen(cmd, shell=True,
                                       env CUDA_VISIBLE_DEVICES=gpu,
                                       stdout=stderr=log) *)
| ERewrite (jobs : list job)        (* rewrite_jobs_file *)
| EAppend (j : job)                 (* save_job *)
| ENvmlInit
| ENvmlCount
| ENvmlMemory (gid : Z)
| ESleep (seconds : Z).

(** What the environment answers, given the history so far. *)
Record system := mkSystem {
  (* os.kill(p, sig) returns normally (true) or raises OSError (false) *)
  kill_ok : list event -> Z -> Z -> bool;
  (* os.waitpid(p, options): the pair (pid, status), or ChildProcessError *)
  waitpid_result : list event -> Z -> Z -> option (Z * Z);
  (* the pid of the process started by Popen *)
  popen_pid : list event -> string -> Z -> Z;
  (* datetime.now().strftime("%Y%m%d_%H%M%S") and datetime.now().isoformat() *)
  strftime_now : list event -> string;
  isoformat_now : list event -> string;
  (* pynvml.nvmlDeviceGetCount() *)
  device_count : list event -> Z;
  (* mem_info.free of a device in bytes, or NVMLError *)
  mem_free : list event -> Z -> option Z;
}.

(** The jobs file is a list of lines: [Some j] is the line [json.dumps(j)],
    [None] a line that is blank or does not parse.  A file that does not
    exist is [None]. *)
Record world := mkWorld {
  jobs_file : option (list (option job));
  commands_file : option (list string);
  trace : list event;
}.

Inductive exn :=
| OSError | ChildProcessError | TypeError | ValueError | KeyError | NVMLError.

#[global] Instance exn_eq_dec : EqDecision exn.
Proof. solve_decision. Defined.

Inductive outcome (A : Type) :=
| Ok (a : A)
| Raise (e : exn).
Arguments Ok {A} a.
Arguments Raise {A} e.

Definition M (A : Type) : Type := world -> outcome A * world.

#[global] Instance M_ret : MRet M := fun A a w => (Ok a, w).
#[global] Instance M_bind : MBind M := fun A B f m w =>
  match m w with
  | (Ok a, w') => f a w'
  | (Raise e, w') => (Raise e, w')
  end.

Definition raise {A} (e : exn) : M A := fun w => (Raise e, w).

(** [try: m except e: h] *)
Definition try_except {A} (m : M A) (e : exn) (h : M A) : M A := fun w =>
  match m w with
  | (Raise e', w') => if decide (e' = e) then h w' else (Raise e', w')
  | r => r
  end.

(** Reading the environment without a system call of interest (the clock):
    the answer after the history so far. *)
Definition observe {A} (answer : list event -> A) : M A := fun w =>
  (Ok (answer (trace w)), w).

Definition push (e : event) (w : world) : world :=
  {| jobs_file := jobs_file w; commands_file := commands_file w;
     trace := trace w ++ [e] |}.

(** A system call: the event is appended to the trace, the answer is what
    the environment gives after the history before the call. *)
Definition ask {A} (e : event) (answer : list event -> A) : M A := fun w =>
  (Ok (answer (trace w)), push e w).

(** ** Strings: [str.strip] *)

(** [str.isspace] on the code points below 256. *)
Definition isspace (c : ascii) : bool :=
  let n := nat_of_ascii c in
  ((9 <=? n)%nat && (n <=? 13)%nat) || ((28 <=? n)%nat && (n <=? 32)%nat)
  || (n =? 133)%nat || (n =? 160)%nat.

Fixpoint lstrip (s : string) : string :=
  match s with
  | EmptyString => EmptyString
  | String c s' => if isspace c then lstrip s' else s
  end.

Fixpoint rstrip (s : string) : string :=
  match s with
  | EmptyString => EmptyString
  | String c s' =>
      match rstrip s' with
      | EmptyString => if isspace c then EmptyString else String c EmptyString
      | r => String c r
      end
  end.

Definition strip (s : string) : string := rstrip (lstrip s).



(** Truth value of a Python string. *)
Definition truthy (s : string) : bool :=
  match s with EmptyString => false | _ => true end.

(** [os.path.join(a, b)] for a relative [b]. *)
Fixpoint ends_with_slash (a : string) : bool :=
  match a with
  | EmptyString => false
  | String c EmptyString => Ascii.eqb c "/"%char
  | String _ a' => ends_with_slash a'
  end.

Definition path_join (a b : string) : string :=
  if truthy a && negb (ends_with_slash a) then a +:+ "/" +:+ b else a +:+ b.

(** ** The device snapshot: a dict from device id to free memory *)

Abbreviation dict := (list (Z * Q)).

Fixpoint dict_get (k : Z) (d : dict) : option Q :=
  match d with
  | [] => None
  | (k', v) :: d' => if k =? k' then Some v else dict_get k d'
  end.

(** [d[k] = v] *)
Fixpoint dict_set (k : Z) (v : Q) (d : dict) : dict :=
  match d with
  | [] => [(k, v)]
  | (k', v') :: d' => if k =? k' then (k, v) :: d' else (k', v') :: dict_set k v d'
  end.

(** [list.sort(key=lambda x: x[1], reverse=True)]: descending by free
    memory and stable, entries of equal memory keep their order. *)
Fixpoint insert_desc (x : Z * Q) (l : list (Z * Q)) : list (Z * Q) :=
  match l with
  | [] => [x]
  | y :: l' => if Qle_bool (snd y) (snd x) then x :: l else y :: insert_desc x l'
  end.

Definition sort_desc (l : list (Z * Q)) : list (Z * Q) :=
  foldr insert_desc [] l.

Definition suitable_gpus (min_free : Q) (free_mem_dict : dict) : list (Z * Q) :=
  filter (fun x => Qle_bool min_free (snd x)) free_mem_dict.

(** The device chosen for the next job, [suitable_gpus[0]] after the sort;
    [None] when no device is suitable. *)
Definition pick (min_free : Q) (d : dict) : option (Z * Q) :=
  head (sort_desc (suitable_gpus min_free d)).

(** [range(n)] *)
Definition range (n : Z) : list Z := Z.of_nat <$> seq 0 (Z.to_nat n).

(** [list.index(x)] *)
Fixpoint index (x : job) (l : list job) : option nat :=
  match l with
  | [] => None
  | y :: l' => if decide (y = x) then Some O else S <$> index x l'
  end.

(** ** The program *)

Section Program.

Variable sys : system.

Definition get_gpu_free_mem_mb (gid : Z) : M Q :=
  r ← ask (ENvmlMemory gid) (fun h => mem_free sys h gid);
  match r with
  | Some free => mret (inject_Z free / 1024 / 1024)%Q
  | None => raise NVMLError
  end.

Fixpoint query_gpus (ids : list Z) (mem_dict : dict) : M dict :=
  match ids with
  | [] => mret mem_dict
  | gid :: rest =>
      mem_dict' ← try_except
        (m ← get_gpu_free_mem_mb gid; mret (dict_set gid m mem_dict))
        NVMLError (mret mem_dict);
      query_gpus rest mem_dict'
  end.

Definition get_all_gpus_free_mem_mb (ids : option (list Z)) : M dict :=
  n ← ask ENvmlCount (device_count sys);
  query_gpus (match ids with None => range n | Some l => l end) [].

Definition load_jobs : M (list job) := fun w =>
  (Ok (match jobs_file w with
       | None => []
       | Some lines => omap id lines
       end), w).

Definition save_job (job_data : job) : M unit := fun w =>
  (Ok tt,
   {| jobs_file := Some (default [] (jobs_file w) ++ [Some job_data]);
      commands_file := commands_file w;
      trace := trace w ++ [EAppend job_data] |}).

Definition rewrite_jobs_file (all_jobs : list job) : M unit := fun w =>
  (Ok tt,
   {| jobs_file := Some (Some <$> all_jobs);
      commands_file := commands_file w;
      trace := trace w ++ [ERewrite all_jobs] |}).

Definition os_kill (p sig : Z) : M unit :=
  ok ← ask (EKill p sig) (fun h => kill_ok sys h p sig);
  if ok : bool then mret tt else raise OSError.

Definition is_process_running (pid : option Z) : M bool :=
  match pid with
  | None => mret false
  | Some p =>
      if p <=? 0 then mret false
      else try_except (os_kill p 0;; mret true) OSError (mret false)
  end.

(** [os.waitpid(pid, options)[1]]; a [pid] that is [None] is a TypeError. *)
Definition os_waitpid_status (pid : option Z) (options : Z) : M Z :=
  match pid with
  | None => raise TypeError
  | Some p =>
      r ← ask (EWaitpid p options) (fun h => waitpid_result sys h p options);
      match r with
      | Some (_, st) => mret st
      | None => raise ChildProcessError
      end
  end.

Definition dispatch_job (j : job) (gpu : Z) (cfg : config) : M job :=
  timestamp_str ← observe (strftime_now sys);
  let log := path_join (log_dir cfg) ("job_" +:+ timestamp_str +:+ ".log") in
  process_pid ← ask (EPopen (command j) gpu log)
                    (fun h => popen_pid sys h (command j) gpu);
  started ← observe (isoformat_now sys);
  mret {| command := command j; status := "running"; pid := Some process_pid;
          gpu_id := Some gpu; start_time := Some started;
          log_file := Some log |}.

(** *** [run_cudaq], step 1: records left running by a previous session *)

Definition reconcile_startup_job (j : job) : M job :=
  if String.eqb (status j) "running" then
    alive ← is_process_running (pid j);
    if negb alive then mret (set_status "failed" j) else mret j
  else mret j.

Fixpoint reconcile_startup (jobs : list job) : M (list job) :=
  match jobs with
  | [] => mret []
  | j :: rest =>
      j' ← reconcile_startup_job j;
      rest' ← reconcile_startup rest;
      mret (j' :: rest')
  end.

(** *** [run_cudaq], step 2: new commands become pending jobs *)

Definition new_commands (lines : list string) : list string :=
  strip <$> filter (fun line => truthy (strip line)) lines.

Definition pending_job (cmd : string) : job :=
  {| command := cmd; status := "pending"; pid := None; gpu_id := None;
     start_time := None; log_file := None |}.

Fixpoint ingest_commands (cmds : list string) (all_jobs : list job)
  : M (list job) :=
  match cmds with
  | [] => mret all_jobs
  | cmd :: rest =>
      let found := existsb (fun j => String.eqb (command j) cmd) all_jobs in
      if found then ingest_commands rest all_jobs
      else
        let job_data := pending_job cmd in
        save_job job_data;;
        ingest_commands rest (all_jobs ++ [job_data])
  end.

Definition read_commands_file : M (option (list string)) := fun w =>
  (Ok (commands_file w), w).

Definition ingest (all_jobs : list job) : M (list job) :=
  src ← read_commands_file;
  match src with
  | Some lines => ingest_commands (new_commands lines) all_jobs
  | None => mret all_jobs
  end.

Definition startup : M (list job) :=
  all_jobs ← load_jobs;
  all_jobs ← reconcile_startup all_jobs;
  rewrite_jobs_file all_jobs;;
  all_jobs ← ingest all_jobs;
  ask ENvmlInit (fun _ => tt);;
  mret all_jobs.

(** *** The dispatch loop: status of the running jobs *)

Definition reconcile_running_job (j : job) : M (job * bool) :=
  if String.eqb (status j) "running" then
    alive ← is_process_running (pid j);
    if negb alive then
      retcode ← try_except
        (st ← os_waitpid_status (pid j) WNOHANG; mret (Some st))
        ChildProcessError (mret None);
      if decide (retcode = Some 0)
      then mret (set_status "completed" j, true)
      else mret (set_status "failed" j, true)
    else mret (j, false)
  else mret (j, false).

Fixpoint reconcile_running (jobs : list job) (changed : bool)
  : M (list job * bool) :=
  match jobs with
  | [] => mret ([], changed)
  | j :: rest =>
      r ← reconcile_running_job j;
      r' ← reconcile_running rest (changed || snd r);
      mret (fst r :: fst r', snd r')
  end.

(** *** The dispatch loop: the assignment pass *)

(** [pending_jobs] holds references to dicts of [all_jobs]: each entry is
    kept with the position of the dict it refers to. *)
Definition pending_jobs (all_jobs : list job) : list (nat * job) :=
  filter (fun x => status (snd x) = "pending") (imap pair all_jobs).

Record pass_state := mkPass {
  all_jobs : list job;
  free_mem_dict : dict;
  assigned_any_job : bool;
}.

(** The body of [for job in pending_jobs]; [None] is [break].
    [dispatch_job] mutates the dict in place, which is the update at the
    position of the job; [all_jobs.index(job)] then finds the first record
    equal to the mutated one and the same dict is stored there. *)
Definition assign_job (cfg : config) (pj : nat * job) (st : pass_state)
  : M (option pass_state) :=
  match sort_desc (suitable_gpus (min_free_mem_mb cfg) (free_mem_dict st)) with
  | [] => mret None
  | (best_gpu, best_gpu_mem) :: _ =>
      updated_job ← dispatch_job (snd pj) best_gpu cfg;
      let mutated := <[fst pj := updated_job]> (all_jobs st) in
      idx ← match index updated_job mutated return M nat with
            | Some i => mret i
            | None => raise ValueError
            end;
      let jobs' := <[idx := updated_job]> mutated in
      rewrite_jobs_file jobs';;
      d' ← match dict_get best_gpu (free_mem_dict st) return M dict with
           | Some m => mret (dict_set best_gpu (m - min_free_mem_mb cfg)%Q
                                      (free_mem_dict st))
           | None => raise KeyError
           end;
      mret (Some {| all_jobs := jobs'; free_mem_dict := d';
                    assigned_any_job := true |})
  end.

Fixpoint assignment_pass (cfg : config) (pending : list (nat * job))
    (st : pass_state) : M pass_state :=
  match pending with
  | [] => mret st
  | pj :: rest =>
      r ← assign_job cfg pj st;
      match r with
      | None => mret st
      | Some st' => assignment_pass cfg rest st'
      end
  end.

Definition sleep (seconds : Z) : M unit := ask (ESleep seconds) (fun _ => tt).

(** The head of the loop body: reload the ledger, update the status of
    the running jobs, rewrite the file if something changed. *)
Definition refresh_jobs : M (list job) :=
  loaded ← load_jobs;
  r ← reconcile_running loaded false;
  (if snd (r : list job * bool) then rewrite_jobs_file (fst r) else mret tt);;
  mret (fst r).

(** One iteration of [while True]. *)
Definition cycle (cfg : config) : M unit :=
  jobs ← refresh_jobs;
  match pending_jobs jobs with
  | [] => sleep (poll_interval cfg)
  | pending =>
      snapshot ← get_all_gpus_free_mem_mb (gpu_ids cfg);
      match snapshot with
      | [] => sleep (poll_interval cfg)
      | _ =>
          assignment_pass cfg pending
            {| all_jobs := jobs; free_mem_dict := snapshot;
               assigned_any_job := false |};;
          sleep (poll_interval cfg)
      end
  end.

Fixpoint cycles (cfg : config) (n : nat) : M unit :=
  match n with
  | O => mret tt
  | S n' => cycle cfg;; cycles cfg n'
  end.


(** *** Vocabulary of the statements *)

(** What [is_process_running] answers in a given world. *)
Definition alive_at (w : world) (p : option Z) : bool :=
  match fst (is_process_running p w) with
  | Ok b => b
  | Raise _ => false
  end.

Definition reconciled_startup (w : world) (j : job) : job :=
  if String.eqb (status j) "running" && negb (alive_at w (pid j))
  then set_status "failed" j else j.

(** The world after [save_job] of each new command in turn. *)
Definition appended (added : list string) (w : world) : world :=
  foldl (fun w c => snd (save_job (pending_job c) w)) w added.

Variable cfg : config.

Definition job_log (w : world) : string :=
  path_join (log_dir cfg) ("job_" +:+ strftime_now sys (trace w) +:+ ".log").

(** The record that [dispatch_job] makes of [j] in world [w]. *)
Definition dispatched (w : world) (j : job) (gpu : Z) : job :=
  {| command := command j; status := "running";
     pid := Some (popen_pid sys (trace w) (command j) gpu);
     gpu_id := Some gpu;
     start_time := Some (isoformat_now sys
                           (trace w ++ [EPopen (command j) gpu (job_log w)]));
     log_file := Some (job_log w) |}.

(** State and world after the job [pj] went to device [g], which had [m]
    MB free. *)
Definition assigned_state (pj : nat * job) (g : Z) (m : Q) (st : pass_state)
    (w : world) : pass_state :=
  {| all_jobs := <[fst pj := dispatched w (snd pj) g]> (all_jobs st);
     free_mem_dict := dict_set g (m - min_free_mem_mb cfg)%Q (free_mem_dict st);
     assigned_any_job := true |}.

Definition assigned_world (pj : nat * job) (g : Z) (st : pass_state)
    (w : world) : world :=
  let jobs' := <[fst pj := dispatched w (snd pj) g]> (all_jobs st) in
  {| jobs_file := Some (Some <$> jobs');
     commands_file := commands_file w;
     trace := trace w ++ [EPopen (command (snd pj)) g (job_log w); ERewrite jobs'] |}.

(** The runs of [assignment_pass]: [pass_run pending st w k st' w'] when
    the loop, started in state [st] and world [w], assigns the first [k]
    pending jobs and ends in [st'] and [w']. *)
Inductive pass_run :
  list (nat * job) -> pass_state -> world -> nat -> pass_state -> world -> Prop :=
| pass_exhausted st w :
    pass_run [] st w 0 st w
| pass_break pj rest st w :
    pick (min_free_mem_mb cfg) (free_mem_dict st) = None ->
    pass_run (pj :: rest) st w 0 st w
| pass_assign pj rest st w g m k st' w' :
    pick (min_free_mem_mb cfg) (free_mem_dict st) = Some (g, m) ->
    pass_run rest (assigned_state pj g m st w) (assigned_world pj g st w) k st' w' ->
    pass_run (pj :: rest) st w (S k) st' w'.

End Program.

(** The status given to a dead job from the answer of [os.waitpid]. *)
Definition exit_classification (r : option (Z * Z)) : string :=
  match r with
  | Some (_, 0) => "completed"
  | _ => "failed"
  end.

(** A running record carries a process id, as every record written by
    [dispatch_job] does. *)
Definition has_handle (j : job) : Prop :=
  status j = "running" -> pid j <> None.

(** The queue refers to records of the ledger, and the snapshot is a dict. *)
Definition valid_pass (pending : list (nat * job)) (st : pass_state) : Prop :=
  Forall (fun pj => (fst pj < length (all_jobs st))%nat) pending /\
  NoDup (fst <$> free_mem_dict st).

(** The events of a pass: a launch and a full rewrite for each assigned
    job, in the order of the queue; the rewritten ledger holds the job as
    running on the device of the launch. *)
Inductive assignment_events : list (nat * job) -> list event -> Prop :=
| no_assignment : assignment_events [] []
| one_assignment pj done c g log jobs evs :
    c = command (snd pj) ->
    (exists J, jobs !! fst pj = Some J /\ command J = c /\
               status J = "running" /\ gpu_id J = Some g) ->
    assignment_events done evs ->
    assignment_events (pj :: done) (EPopen c g log :: ERewrite jobs :: evs).


(** ** Example systems *)

Definition MiB : Z := 1024 * 1024.

(** Two devices: device 0 reports 8000 MB free, device 1 reports 10000 MB.
    Every probed process is alive. *)
Definition two_gpus : system :=
  {| kill_ok := fun _ _ _ => true;
     waitpid_result := fun _ _ _ => None;
     popen_pid := fun h _ _ => 4000 + Z.of_nat (length h);
     strftime_now := fun _ => "20240101_000000";
     isoformat_now := fun _ => "2024-01-01T00:00:00";
     device_count := fun _ => 2;
     mem_free := fun _ g =>
       if g =? 0 then Some (8000 * MiB)
       else if g =? 1 then Some (10000 * MiB) else None |}.

(** Two devices with the same free memory, 8000 MB. *)
Definition tied_gpus : system :=
  {| kill_ok := fun _ _ _ => true;
     waitpid_result := fun _ _ _ => None;
     popen_pid := fun h _ _ => 4000 + Z.of_nat (length h);
     strftime_now := fun _ => "20240101_000000";
     isoformat_now := fun _ => "2024-01-01T00:00:00";
     device_count := fun _ => 2;
     mem_free := fun _ g =>
       if (0 <=? g) && (g <? 2) then Some (8000 * MiB) else None |}.


Definition running_job (cmd : string) (p gpu : Z) : job :=
  {| command := cmd; status := "running"; pid := Some p; gpu_id := Some gpu;
     start_time := Some "2024-01-01T00:00:00";
     log_file := Some "./logs/job_20240101_000000.log" |}.

Definition world_of (ledger : list job) (src : option (list string)) : world :=
  {| jobs_file := Some (Some <$> ledger); commands_file := src; trace := [] |}.

(** The allow-list names device 1 before device 0. *)
Definition reversed_ids : config :=
  {| gpu_ids := Some [1; 0]; min_free_mem_mb := 6000%Q; poll_interval := 60;
     log_dir := "./logs" |}.

(** ** Vocabulary of the further properties *)

(** The ledger that [load_jobs] reads in a world. *)
Definition ledger_of (w : world) : list job :=
  match jobs_file w with
  | None => []
  | Some lines => omap id lines
  end.

(** What the reconciliation of a cycle may do to a record. *)
Definition exit_step (j j' : job) : Prop :=
  j' = j \/
  (status j = "running" /\
   (j' = set_status "completed" j \/ j' = set_status "failed" j)).

(** What one cycle may do to a record: nothing, the end of a running job,
    or the launch of a pending one. *)
Inductive record_step (sys : system) (cfg : config) : job -> job -> Prop :=
| step_same j : record_step sys cfg j j
| step_exit j s :
    status j = "running" -> s = "completed" \/ s = "failed" ->
    record_step sys cfg j (set_status s j)
| step_launch j w g :
    status j = "pending" -> record_step sys cfg j (dispatched sys cfg w j g).

(** What a record may become over several cycles. *)
Inductive record_steps (sys : system) (cfg : config) : job -> job -> Prop :=
| steps_none j : record_steps sys cfg j j
| steps_more j1 j2 j3 :
    record_step sys cfg j1 j2 -> record_steps sys cfg j2 j3 ->
    record_steps sys cfg j1 j3.

(** Events that start a process or write the ledger file. *)
Definition launches_or_writes (e : event) : bool :=
  match e with
  | EPopen _ _ _ | ERewrite _ | EAppend _ => true
  | _ => false
  end.



(** Two worlds with the same files, the second with more events, none of
    which starts a process or writes the ledger file. *)
Definition extends (w w' : world) : Prop :=
  jobs_file w' = jobs_file w /\ commands_file w' = commands_file w /\
  exists evs, trace w' = trace w ++ evs /\
              Forall (fun e => launches_or_writes e = false) evs.

(** [m] MB is a reading of device [g]: what NVML answers at some moment. *)
Definition reading (sys : system) (g : Z) (m : Q) : Prop :=
  exists h bytes, mem_free sys h g = Some bytes /\
                  m = (inject_Z bytes / 1024 / 1024)%Q.

(** ** [load_config]

    The configuration is a dict from key to value.  Values come from
    [DEFAULT_CONFIG] ([None], integers, strings), from the command line
    (strings, integers and lists of integers) and from the YAML file, whose
    values are kept as they are loaded, in a type [Y] of their own.  The
    file system, [yaml.safe_load] (which gives a dict, or nothing for an
    empty document) and [int] on strings are parameters. *)

From stdpp Require Import gmap.

Open Scope Z_scope.

Inductive value (Y : Type) : Type :=
| VNone
| VInt (z : Z)
| VStr (s : string)
| VInts (l : list Z)
| VYaml (y : Y).
Arguments VNone {Y}.
Arguments VInt {Y} z.
Arguments VStr {Y} s.
Arguments VInts {Y} l.
Arguments VYaml {Y} y.

(** The namespace made by [argparse]: each option is a string or [None]. *)
Record cli_args := mkArgs {
  arg_gpu_ids : option string;
  arg_min_free_mem_mb : option string;
  arg_poll_interval : option string;
  arg_commands_file : option string;
  arg_log_dir : option string;
  arg_jobs_file : option string;
}.

Inductive load_error := LoadAttributeError | LoadValueError.

(** [s.split(",")] *)
Fixpoint split_comma (s : string) : list string :=
  match s with
  | EmptyString => [EmptyString]
  | String c s' =>
      if Ascii.eqb c ","%char then EmptyString :: split_comma s'
      else match split_comma s' with
           | piece :: pieces => String c piece :: pieces
           | [] => [String c EmptyString]
           end
  end.

(** [",".join(pieces)] *)
Fixpoint join_comma (pieces : list string) : string :=
  match pieces with
  | [] => EmptyString
  | [piece] => piece
  | piece :: rest => piece +:+ "," +:+ join_comma rest
  end.

Fixpoint has_comma (s : string) : bool :=
  match s with
  | EmptyString => false
  | String c s' => Ascii.eqb c ","%char || has_comma s'
  end.

Section LoadConfig.

Variable Y : Type.
Variable path_exists : string -> bool.
Variable yaml_safe_load : string -> option (gmap string Y).
Variable py_int : string -> option Z.

(** [DEFAULT_CONFIG] as the dict it is. *)
Definition DEFAULT_CONFIG_dict : gmap string (value Y) :=
  <["gpu_ids" := VNone]>
  (<["min_free_mem_mb" := VInt 6000]>
  (<["poll_interval" := VInt 60]>
  (<["commands_file" := VStr "commands.txt"]>
  (<["log_dir" := VStr "./logs"]>
  (<["jobs_file" := VStr "./jobs.jsonl"]> ∅))))).

(** The dict read from the configuration file, empty when there is none. *)
Definition file_config (config_file : option string) : gmap string Y :=
  match config_file with
  | Some f =>
      if truthy f && path_exists f
      then default ∅ (yaml_safe_load f)
      else ∅
  | None => ∅
  end.

(** An override from the command line: the key is set when the option is
    given; [None] is the ValueError of a conversion. *)
Definition override {A} (key : string) (arg : option A)
    (convert : A -> option (value Y)) (config : gmap string (value Y))
  : option (gmap string (value Y)) :=
  match arg with
  | None => Some config
  | Some a =>
      match convert a with
      | Some v => Some (<[key := v]> config)
      | None => None
      end
  end.

Definition load_config (config_file : option string) (cli : option cli_args)
  : load_error + gmap string (value Y) :=
  let config := (VYaml <$> file_config config_file) ∪ DEFAULT_CONFIG_dict in
  match cli with
  | None => inl LoadAttributeError
  | Some a =>
      match
        config ← override "gpu_ids" (arg_gpu_ids a)
                   (fun s => VInts <$> mapM py_int (split_comma s)) config;
        config ← override "min_free_mem_mb" (arg_min_free_mem_mb a)
                   (fun s => VInt <$> py_int s) config;
        config ← override "poll_interval" (arg_poll_interval a)
                   (fun s => VInt <$> py_int s) config;
        config ← override "commands_file" (arg_commands_file a)
                   (fun s => Some (VStr s)) config;
        config ← override "log_dir" (arg_log_dir a)
                   (fun s => Some (VStr s)) config;
        override "jobs_file" (arg_jobs_file a) (fun s => Some (VStr s)) config
      with
      | Some config => inr config
      | None => inl LoadValueError
      end
  end.

(** The value of a key before the command line is looked at: the value of
    the file if the file has the key, the default otherwise. *)
Definition base_value (config_file : option string) (k : string)
  : option (value Y) :=
  match file_config config_file !! k with
  | Some y => Some (VYaml y)
  | None => DEFAULT_CONFIG_dict !! k
  end.


End LoadConfig.

(** An [int] for examples: unsigned decimal digits only. *)
Fixpoint digits_value (s : string) (acc : Z) : option Z :=
  match s with
  | EmptyString => Some acc
  | String c s' =>
      let n := Z.of_nat (nat_of_ascii c) in
      if ((48 <=? n) && (n <=? 57))%Z then digits_value s' (10 * acc + (n - 48))%Z
      else None
  end.

Definition digits_int (s : string) : option Z :=
  match s with
  | EmptyString => None
  | _ => digits_value s 0
  end.

Definition no_args : cli_args :=
  {| arg_gpu_ids := None; arg_min_free_mem_mb := None; arg_poll_interval := None;
     arg_commands_file := None; arg_log_dir := None; arg_jobs_file := None |}.

Definition example_args : cli_args :=
  {| arg_gpu_ids := Some "0,1"; arg_min_free_mem_mb := None;
     arg_poll_interval := None; arg_commands_file := Some "todo.txt";
     arg_log_dir := None; arg_jobs_file := None |}.

(** Two devices with 1000 MB free each, below the default threshold. *)
Definition low_gpus : system :=
  {| kill_ok := fun _ _ _ => true;
     waitpid_result := fun _ _ _ => None;
     popen_pid := fun h _ _ => 4000 + Z.of_nat (length h);
     strftime_now := fun _ => "20240101_000000";
     isoformat_now := fun _ => "2024-01-01T00:00:00";
     device_count := fun _ => 2;
     mem_free := fun _ g =>
       if (0 <=? g) && (g <? 2) then Some (1000 * MiB) else None |}.

Definition zero_threshold : config :=
  {| gpu_ids := None; min_free_mem_mb := 0%Q; poll_interval := 60;
     log_dir := "./logs" |}.
(** * Properties *)

Lemma bind_run {A B} (m : M A) (f : A -> M B) w :
  (m ≫= f) w = match m w with (Ok a, w') => f a w' | (Raise e, w') => (Raise e, w') end.
Proof. reflexivity. Qed.

Lemma ret_run {A} (a : A) w : (mret a : M A) w = (Ok a, w).
Proof. reflexivity. Qed.

Ltac mrun := repeat first [rewrite bind_run | rewrite ret_run]; simpl.

Lemma is_process_running_run sys p w :
  is_process_running sys p w =
  match p with
  | None => (Ok false, w)
  | Some z => if z <=? 0 then (Ok false, w)
              else (Ok (kill_ok sys (trace w) z 0), push (EKill z 0) w)
  end.
Proof.
  destruct p as [z|]; [|reflexivity]. unfold is_process_running.
  destruct (z <=? 0); [reflexivity|].
  unfold try_except, os_kill, ask. rewrite !bind_run.
  destruct (kill_ok sys (trace w) z 0); reflexivity.
Qed.

(** C9.  [is_process_running] answers [False] for a pid that is [None] or
    not positive and leaves the world as it was: no system call is made.
    So the pid of a pending record is never reported alive; and whatever
    the pid, the only system call the check can make is [os.kill(z, 0)] for
    a [z > 0] that is the pid it was given. *)
Theorem is_process_running_guard (sys : system) (p : option Z) (w : world) :
  (match p with None => True | Some z => z <= 0 end ->
     is_process_running sys p w = (Ok false, w)) /\
  (forall cmd, is_process_running sys (pid (pending_job cmd)) w = (Ok false, w)) /\
  (exists b evs, is_process_running sys p w = (Ok b, {| jobs_file := jobs_file w; commands_file := commands_file w; trace := trace w ++ evs |}) /\
     forall e, e ∈ evs -> exists z, e = EKill z 0 /\ 0 < z /\ p = Some z).
Proof.
  rewrite is_process_running_run. split; [|split].
  - destruct p as [z|]; [|done]. intros Hz. apply Z.leb_le in Hz. by rewrite Hz.
  - done.
  - destruct p as [z|].
    + destruct (z <=? 0) eqn:Hz.
      * exists false, []. split; [destruct w; simpl; by rewrite app_nil_r|]. intros e He. inversion He.
      * exists (kill_ok sys (trace w) z 0), [EKill z 0]. split; [done|].
        intros e He. apply list_elem_of_singleton in He. exists z. apply Z.leb_gt in Hz. done.
    + exists false, []. split; [destruct w; simpl; by rewrite app_nil_r|]. intros e He. inversion He.
Qed.

Section Startup.
Variable sys : system.

Lemma is_process_running_total p w :
  is_process_running sys p w = (Ok (alive_at sys w p), snd (is_process_running sys p w)).
Proof.
  unfold alive_at. rewrite is_process_running_run.
  destruct p as [z|]; [destruct (z <=? 0)|]; reflexivity.
Qed.

Lemma reconcile_startup_job_run j w :
  reconcile_startup_job sys j w =
  (Ok (reconciled_startup sys w j),
   if String.eqb (status j) "running" then snd (is_process_running sys (pid j) w) else w).
Proof.
  unfold reconcile_startup_job, reconciled_startup.
  destruct (String.eqb (status j) "running"); [|reflexivity].
  rewrite bind_run, is_process_running_total. simpl.
  destruct (alive_at sys w (pid j)); reflexivity.
Qed.


Lemma reconcile_startup_total l w :
  exists l', reconcile_startup sys l w = (Ok l', snd (reconcile_startup sys l w))
             /\ length l' = length l.
Proof.
  revert w. induction l as [|j l IH]; intros w; simpl.
  - by exists [].
  - mrun. rewrite reconcile_startup_job_run. mrun.
    destruct (IH (if String.eqb (status j) "running"
                  then snd (is_process_running sys (pid j) w) else w)) as (l' & -> & Hlen).
    eexists. split; [reflexivity|]. simpl. by rewrite Hlen.
Qed.

End Startup.

Section Running.
Variable sys : system.

Lemma waitpid_attempt p w :
  try_except (st ← os_waitpid_status sys (Some p) WNOHANG; mret (Some st))
             ChildProcessError (mret None) w
  = (Ok (snd <$> waitpid_result sys (trace w) p WNOHANG), push (EWaitpid p WNOHANG) w).
Proof.
  unfold try_except, os_waitpid_status, ask. mrun.
  destruct (waitpid_result sys (trace w) p WNOHANG) as [[q st]|]; reflexivity.
Qed.

Lemma reconcile_running_job_dead j p w :
  status j = "running" -> pid j = Some p -> alive_at sys w (Some p) = false ->
  let w1 := snd (is_process_running sys (Some p) w) in
  reconcile_running_job sys j w =
  (Ok (set_status (exit_classification (waitpid_result sys (trace w1) p WNOHANG)) j, true),
   push (EWaitpid p WNOHANG) w1).
Proof.
  intros Hst Hpid Hdead w1. unfold reconcile_running_job.
  rewrite Hst, Hpid, String.eqb_refl.
  rewrite bind_run, is_process_running_total, Hdead. fold w1.
  change (negb false) with true. cbv beta iota.
  rewrite bind_run, waitpid_attempt.
  destruct (waitpid_result sys (trace w1) p WNOHANG) as [[q st]|]; simpl; [|reflexivity].
  destruct (decide (Some st = Some 0)) as [E|E].
  - injection E as ->. reflexivity.
  - destruct st; try reflexivity. congruence.
Qed.

Lemma reconcile_running_job_other j w :
  status j <> "running" \/ alive_at sys w (pid j) = true ->
  reconcile_running_job sys j w =
  (Ok (j, false),
   if String.eqb (status j) "running" then snd (is_process_running sys (pid j) w) else w).
Proof.
  intros H. unfold reconcile_running_job.
  destruct (String.eqb (status j) "running") eqn:E; [|reflexivity].
  apply String.eqb_eq in E. destruct H as [H|H]; [congruence|].
  rewrite bind_run, is_process_running_total, H. reflexivity.
Qed.

Lemma reconcile_running_job_total j w :
  has_handle j ->
  exists j' c, reconcile_running_job sys j w = (Ok (j', c), snd (reconcile_running_job sys j w))
    /\ (j' <> j -> c = true).
Proof.
  intros Hh.
  destruct (decide (status j = "running")) as [Hst|Hst].
  - destruct (alive_at sys w (pid j)) eqn:Ha.
    + rewrite reconcile_running_job_other by auto. exists j, false. done.
    + destruct (pid j) as [p|] eqn:Hp; [|by destruct (Hh Hst)].
      rewrite (reconcile_running_job_dead j p w) by auto. eexists _, true. done.
  - rewrite reconcile_running_job_other by auto. exists j, false. done.
Qed.

Lemma reconcile_running_app l1 l2 ch w :
  reconcile_running sys (l1 ++ l2) ch w =
  match reconcile_running sys l1 ch w with
  | (Ok (a, c1), w1) =>
      match reconcile_running sys l2 c1 w1 with
      | (Ok (b, c2), w2) => (Ok (a ++ b, c2), w2)
      | (Raise e, w2) => (Raise e, w2)
      end
  | (Raise e, w1) => (Raise e, w1)
  end.
Proof.
  revert ch w. induction l1 as [|j l1 IH]; intros ch w; simpl.
  - mrun. destruct (reconcile_running sys l2 ch w) as [[[b c]|e] w2]; reflexivity.
  - mrun. destruct (reconcile_running_job sys j w) as [[[j' c]|e] w1]; [|reflexivity].
    mrun. rewrite IH.
    destruct (reconcile_running sys l1 _ w1) as [[[a c1]|e] w2]; mrun; [|reflexivity].
    destruct (reconcile_running sys l2 c1 w2) as [[[b c2]|e] w3]; reflexivity.
Qed.

Lemma reconcile_running_total l ch w :
  Forall has_handle l ->
  exists l' ch', reconcile_running sys l ch w = (Ok (l', ch'), snd (reconcile_running sys l ch w))
     /\ length l' = length l /\ (ch = true -> ch' = true) /\ (l' <> l -> ch' = true).
Proof.
  intros Hwf. revert ch w. induction Hwf as [|j l Hj Hwf IH]; intros ch w; simpl.
  - exists [], ch. done.
  - mrun. destruct (reconcile_running_job_total j w Hj) as (j' & c & -> & Hc). mrun.
    destruct (IH (ch || c) (snd (reconcile_running_job sys j w))) as (l' & ch' & -> & Hlen & Hch & Hne).
    mrun. exists (j' :: l'), ch'. split; [done|]. split; [simpl; lia|]. split.
    + intros ->. by apply Hch.
    + intros Hneq. destruct (decide (j' = j)) as [->|Hj'].
      * apply Hne. congruence.
      * apply Hch. rewrite (Hc Hj'). apply orb_true_r.
Qed.

End Running.














Lemma known_command cmd jobs :
  existsb (fun j => String.eqb (command j) cmd) jobs = true <-> cmd ∈ (command <$> jobs).
Proof.
  rewrite existsb_exists, list_elem_of_fmap. split.
  - intros (j & Hj & E). apply String.eqb_eq in E. exists j. split; [done|].
    by apply list_elem_of_In.
  - intros (j & -> & Hj). exists j. split; [by apply list_elem_of_In|apply String.eqb_refl].
Qed.

Lemma ingest_commands_spec cmds jobs w :
  exists added,
    ingest_commands cmds jobs w = (Ok (jobs ++ (pending_job <$> added)), appended added w) /\
    NoDup added /\
    (forall c, c ∈ added <-> c ∈ cmds /\ c ∉ (command <$> jobs)) /\
    sublist added cmds.
Proof.
  revert jobs w. induction cmds as [|cmd rest IH]; intros jobs w; simpl.
  - exists []. rewrite app_nil_r. split; [done|]. split; [constructor|].
    split; [|constructor]. intros c. split; [inversion 1|]. intros [H _]. inversion H.
  - destruct (existsb _ jobs) eqn:Hfound.
    + apply known_command in Hfound.
      destruct (IH jobs w) as (added & Hrun & Hnd & Hin & Hsub).
      exists added. split; [done|]. split; [done|]. split; [|by apply sublist_cons].
      intros c. rewrite Hin, elem_of_cons. split; [tauto|].
      intros [[->|Hc] Hn]; tauto.
    + assert (cmd ∉ (command <$> jobs)) as Hnew.
      { rewrite <- known_command. by rewrite Hfound. }
      mrun.
      destruct (IH (jobs ++ [pending_job cmd]) (snd (save_job (pending_job cmd) w)))
        as (added & Hrun & Hnd & Hin & Hsub).
      exists (cmd :: added). split; [|split; [|split]].
      * unfold M, save_job in *. simpl in *. rewrite Hrun. by rewrite <- app_assoc.
      * constructor; [|done]. rewrite Hin, fmap_app. simpl.
        intros [_ Hn]. apply Hn. apply elem_of_app. right. by left.
      * intros c. rewrite !elem_of_cons, Hin, fmap_app, elem_of_app. simpl.
        rewrite list_elem_of_singleton.
        destruct (decide (c = cmd)) as [->|Hne]; [tauto|]. tauto.
      * by apply sublist_skip.
Qed.

Lemma command_pending_job (added : list string) : command <$> (pending_job <$> added) = added.
Proof. induction added as [|c l IH]; [done|]. rewrite !fmap_cons. simpl. by rewrite IH. Qed.

Lemma ingest_spec lines jobs w :
  commands_file w = Some lines ->
  exists added,
    ingest jobs w = (Ok (jobs ++ (pending_job <$> added)), appended added w) /\
    NoDup added /\
    (forall c, c ∈ added <-> c ∈ new_commands lines /\ c ∉ command <$> jobs) /\
    sublist added (new_commands lines).
Proof.
  intros Hsrc. unfold ingest, read_commands_file. rewrite bind_run, Hsrc.
  apply ingest_commands_spec.
Qed.

(** C2.  Ingesting a command source appends one pending record for each
    command of the source whose text equals the text of no record of the
    ledger, terminal or not, and appends it once.  Ingesting the same source
    again into a ledger with the same command texts, whatever became of the
    statuses, appends nothing.  Hence two records with the same command text
    are never due to ingestion: both were in the ledger before. *)
Theorem ingest_dedup (lines : list string) (jobs : list job)
    (f : option (list (option job))) (t : list event) :
  let w := {| jobs_file := f; commands_file := Some lines; trace := t |} in
  exists added,
    ingest jobs w = (Ok (jobs ++ (pending_job <$> added)), appended added w) /\
    NoDup added /\
    (forall c, c ∈ added <->
               c ∈ new_commands lines /\ forall j, j ∈ jobs -> command j <> c) /\
    (forall jobs1 w1,
        command <$> jobs1 = command <$> (jobs ++ (pending_job <$> added)) ->
        commands_file w1 = Some lines ->
        ingest jobs1 w1 = (Ok jobs1, w1)) /\
    (forall jobs1 (i k : nat) (a b : job),
        command <$> jobs1 = command <$> (jobs ++ (pending_job <$> added)) ->
        (i < k)%nat -> jobs1 !! i = Some a -> jobs1 !! k = Some b ->
        command a = command b ->
        (k < length jobs)%nat).
Proof.
  intros w.
  destruct (ingest_spec lines jobs w eq_refl) as (added & Hrun & Hnd & Hin & _).
  exists added. split; [exact Hrun|]. split; [exact Hnd|]. split; [|split].
  - intros c. rewrite Hin, list_elem_of_fmap. split.
    + intros [Hc Hn]. split; [done|]. intros j Hj E. apply Hn. by exists j.
    + intros [Hc Hn]. split; [done|]. intros (j & -> & Hj). by apply (Hn j).
  - intros jobs1 w1 Hcmds Hsrc.
    destruct (ingest_spec lines jobs1 w1 Hsrc) as (added1 & Hrun1 & _ & Hin1 & _).
    assert (added1 = []) as ->.
    { apply elem_of_nil_inv. intros c [Hc Hn]%Hin1. apply Hn.
      rewrite Hcmds, fmap_app, command_pending_job, elem_of_app.
      destruct (decide (c ∈ command <$> jobs)) as [|Hfresh]; [by left|].
      right. apply Hin. done. }
    simpl in Hrun1. by rewrite app_nil_r in Hrun1.
  - intros jobs1 i k a b Hcmds Hik Hi Hk Hab.
    destruct (decide (k < length jobs)%nat) as [|Hge]; [done|]. exfalso.
    rewrite fmap_app, command_pending_job in Hcmds.
    assert (Hci : (command <$> jobs1) !! i = Some (command a)) by (by rewrite list_lookup_fmap, Hi).
    assert (Hck : (command <$> jobs1) !! k = Some (command a)) by (by rewrite list_lookup_fmap, Hk, Hab).
    rewrite Hcmds in Hci, Hck.
    rewrite lookup_app_r in Hck by (rewrite length_fmap; lia).
    rewrite length_fmap in Hck.
    destruct (decide (i < length jobs)%nat) as [Hlt|Hge'].
    + rewrite lookup_app_l in Hci by (rewrite length_fmap; lia).
      apply list_elem_of_lookup_2 in Hci, Hck.
      apply Hin in Hck as [_ Hn]. by apply Hn.
    + rewrite lookup_app_r in Hci by (rewrite length_fmap; lia).
      rewrite length_fmap in Hci.
      pose proof (NoDup_lookup _ _ _ _ Hnd Hci Hck). lia.
Qed.


Lemma head_insert_desc x l :
  head (insert_desc x l) =
  match head l with
  | None => Some x
  | Some y => if Qle_bool (snd y) (snd x) then Some x else Some y
  end.
Proof. destruct l as [|y l]; simpl; [done|]. by destruct (Qle_bool (snd y) (snd x)). Qed.

Lemma pick_cons thr x d :
  pick thr (x :: d) =
  if Qle_bool thr (snd x) then
    match pick thr d with
    | None => Some x
    | Some y => if Qle_bool (snd y) (snd x) then Some x else Some y
    end
  else pick thr d.
Proof.
  unfold pick, suitable_gpus. rewrite filter_cons.
  destruct (decide (Qle_bool thr (snd x))) as [H|H].
  - apply Is_true_true in H. rewrite H. simpl. apply head_insert_desc.
  - apply Is_true_false in H. by rewrite H.
Qed.

Lemma pick_none thr d :
  pick thr d = None <-> forall x, x ∈ d -> ~ (thr <= snd x)%Q.
Proof.
  induction d as [|x d IH]; [split; [intros _ y Hy; inversion Hy|reflexivity]|].
  rewrite pick_cons. destruct (Qle_bool thr (snd x)) eqn:Hx.
  - split.
    + destruct (pick thr d) as [y|]; [destruct (Qle_bool (snd y) (snd x))|]; intros [=].
    + intros H. exfalso. apply (H x); [by left|]. by apply Qle_bool_iff.
  - rewrite IH. split.
    + intros H y [->|Hy]%elem_of_cons; [|by apply H].
      rewrite <- Qle_bool_iff, Hx. done.
    + intros H y Hy. apply H. by right.
Qed.

(** The chosen device is the first entry of the snapshot, in iteration
    order, that has the largest free memory among the suitable ones. *)
Lemma pick_some thr d g m :
  pick thr d = Some (g, m) ->
  exists pre post,
    d = pre ++ (g, m) :: post /\ (thr <= m)%Q /\
    (forall x, x ∈ pre -> (thr <= snd x)%Q -> (snd x < m)%Q) /\
    (forall x, x ∈ post -> (thr <= snd x)%Q -> (snd x <= m)%Q).
Proof.
  revert g m. induction d as [|x d IH]; intros g m; [done|].
  rewrite pick_cons. destruct (Qle_bool thr (snd x)) eqn:Hx.
  - apply Qle_bool_iff in Hx.
    destruct (pick thr d) as [[g' m']|] eqn:Hd.
    + destruct (IH g' m' eq_refl) as (pre & post & -> & Hm' & Hpre & Hpost).
      destruct (Qle_bool (snd (g', m')) (snd x)) eqn:Hle; intros E; simplify_eq; simpl in *.
      * apply Qle_bool_iff in Hle. simpl in *.
        exists [], (pre ++ (g', m') :: post). split; [done|]. split; [done|].
        split; [intros y Hy; inversion Hy|].
        intros y Hy Hthr. apply elem_of_app in Hy as [Hy|Hy].
        -- apply Qlt_le_weak. eapply Qlt_le_trans; [by apply Hpre|done].
        -- apply elem_of_cons in Hy as [->|Hy]; [done|].
           eapply Qle_trans; [by apply Hpost|done].
      * exists (x :: pre), post. split; [done|]. split; [done|]. split; [|done].
        intros y [->|Hy]%elem_of_cons Hthr; [|by apply Hpre].
        apply Qnot_le_lt. rewrite <- Qle_bool_iff, Hle. done.
    + intros [= ->]. exists [], d. split; [done|]. split; [done|].
      split; [intros y Hy; inversion Hy|].
      intros y Hy Hthr. exfalso. eapply pick_none; eauto.
  - intros Hp. destruct (IH g m Hp) as (pre & post & -> & Hm & Hpre & Hpost).
    exists (x :: pre), post. split; [done|]. split; [done|]. split; [|done].
    intros y [->|Hy]%elem_of_cons Hthr; [|by apply Hpre].
    exfalso. apply Qle_bool_iff in Hthr. congruence.
Qed.

Lemma pick_sorted thr d :
  sort_desc (suitable_gpus thr d) = [] /\ pick thr d = None \/
  exists g m rest, sort_desc (suitable_gpus thr d) = (g, m) :: rest /\ pick thr d = Some (g, m).
Proof.
  unfold pick. destruct (sort_desc (suitable_gpus thr d)) as [|[g m] rest]; [by left|].
  right. by exists g, m, rest.
Qed.

Lemma index_found x l i :
  l !! i = Some x -> exists i', index x l = Some i' /\ l !! i' = Some x.
Proof.
  revert i. induction l as [|y l IH]; intros i Hi; [done|]. simpl.
  destruct (decide (y = x)) as [->|Hne]; [by exists O|].
  destruct i as [|i]; [simpl in Hi; congruence|].
  destruct (IH i Hi) as (i' & -> & Hi'). by exists (S i').
Qed.

Lemma dict_get_middle (d pre post : dict) g m :
  NoDup (fst <$> d) -> d = pre ++ (g, m) :: post -> dict_get g d = Some m.
Proof.
  intros Hnd ->. induction pre as [|[k v] pre IH]; simpl.
  - by rewrite Z.eqb_refl.
  - csimpl in Hnd. apply NoDup_cons in Hnd as [Hk Hnd].
    destruct (g =? k) eqn:E; [|by apply IH].
    apply Z.eqb_eq in E. subst k. exfalso. apply Hk.
    rewrite fmap_app, elem_of_app. right. by left.
Qed.

Lemma dict_set_keys (d : dict) g v :
  g ∈ fst <$> d -> fst <$> dict_set g v d = fst <$> d.
Proof.
  induction d as [|[k v'] d IH]; csimpl; [inversion 1|].
  intros Hg. destruct (g =? k) eqn:E; csimpl.
  - apply Z.eqb_eq in E. by subst.
  - f_equal. apply IH.
    apply elem_of_cons in Hg as [->|Hg]; [|done]. by rewrite Z.eqb_refl in E.
Qed.

Lemma pending_jobs_from (jobs : list job) (k : nat) :
  StronglySorted lt
    (fst <$> filter (fun x : nat * job => status (snd x) = "pending")
                    (imap (fun i => pair (k + i)%nat) jobs)) /\
  Forall (fun p => (k <= p)%nat)
    (fst <$> filter (fun x : nat * job => status (snd x) = "pending")
                    (imap (fun i => pair (k + i)%nat) jobs)).
Proof.
  revert k. induction jobs as [|j jobs IH]; intros k; [split; constructor|].
  simpl imap. rewrite filter_cons.
  rewrite (imap_ext _ (fun i => pair (S k + i)%nat))
    by (intros i x _; simpl; f_equal; lia).
  destruct (IH (S k)) as [Hs Hf].
  destruct (decide _) as [Hp|Hp]; csimpl.
  - split.
    + constructor; [exact Hs|]. eapply Forall_impl; [exact Hf|]. simpl. intros; lia.
    + constructor; [simpl; lia|]. eapply Forall_impl; [exact Hf|]. simpl. intros; lia.
  - split; [exact Hs|]. eapply Forall_impl; [exact Hf|]. simpl. intros; lia.
Qed.

(** The queue is in ledger order. *)
Lemma pending_jobs_sorted jobs : StronglySorted lt (fst <$> pending_jobs jobs).
Proof. apply (pending_jobs_from jobs 0). Qed.

Lemma pending_jobs_elem jobs p j :
  (p, j) ∈ pending_jobs jobs <-> jobs !! p = Some j /\ status j = "pending".
Proof.
  unfold pending_jobs. rewrite list_elem_of_filter, elem_of_lookup_imap. simpl. split.
  - intros [Hst (i & y & [= -> ->] & Hi)]. done.
  - intros [Hp Hst]. split; [done|]. by exists p, j.
Qed.

Lemma sorted_lt_NoDup (l : list nat) : StronglySorted lt l -> NoDup l.
Proof.
  induction 1 as [|x l Hs IH Hx]; constructor; [|done].
  intros Hin. rewrite Forall_forall in Hx. specialize (Hx x Hin). lia.
Qed.

Lemma pending_jobs_NoDup jobs : NoDup (fst <$> pending_jobs jobs).
Proof. apply sorted_lt_NoDup, pending_jobs_sorted. Qed.

Lemma pending_jobs_valid jobs :
  Forall (fun pj : nat * job => (fst pj < length jobs)%nat) (pending_jobs jobs).
Proof.
  apply Forall_forall. intros [p j] [Hp _]%pending_jobs_elem.
  simpl. by eapply lookup_lt_Some.
Qed.

Section Dispatch.
Variable sys : system.
Variable cfg : config.

Lemma dispatch_job_run j g w :
  dispatch_job sys j g cfg w =
  (Ok (dispatched sys cfg w j g), push (EPopen (command j) g (job_log sys cfg w)) w).
Proof. reflexivity. Qed.

Lemma assign_job_run pj st w :
  (fst pj < length (all_jobs st))%nat ->
  NoDup (fst <$> free_mem_dict st) ->
  assign_job sys cfg pj st w =
  match pick (min_free_mem_mb cfg) (free_mem_dict st) with
  | None => (Ok None, w)
  | Some (g, m) => (Ok (Some (assigned_state sys cfg pj g m st w)), assigned_world sys cfg pj g st w)
  end.
Proof.
  intros Hp Hnd. unfold assign_job.
  destruct (pick_sorted (min_free_mem_mb cfg) (free_mem_dict st))
    as [[-> ->]|(g & m & rest & -> & Hpick)]; [reflexivity|].
  rewrite Hpick. rewrite bind_run, dispatch_job_run.
  set (J := dispatched sys cfg w (snd pj) g).
  assert (Hat : <[fst pj := J]> (all_jobs st) !! fst pj = Some J)
    by (by apply list_lookup_insert_eq).
  destruct (index_found _ _ _ Hat) as (idx & Hidx & Hidx').
  rewrite Hidx. mrun.
  rewrite (list_insert_id _ _ _ Hidx').
  destruct (pick_some _ _ _ _ Hpick) as (pre & post & Hd & _).
  rewrite (dict_get_middle _ pre post g m Hnd Hd). mrun.
  unfold assigned_state, assigned_world. simpl. by rewrite <- app_assoc.
Qed.

Lemma pick_key thr (d : dict) g m : pick thr d = Some (g, m) -> g ∈ fst <$> d.
Proof.
  intros (pre & post & -> & _)%pick_some.
  rewrite fmap_app, elem_of_app. right. by left.
Qed.

Lemma valid_pass_step pj rest st w g m :
  valid_pass (pj :: rest) st ->
  pick (min_free_mem_mb cfg) (free_mem_dict st) = Some (g, m) ->
  valid_pass rest (assigned_state sys cfg pj g m st w).
Proof.
  intros [Hpos Hnd] Hpick. split; simpl.
  - apply Forall_cons in Hpos as [_ Hpos]. by rewrite length_insert.
  - rewrite dict_set_keys; [done|]. by eapply pick_key.
Qed.

Lemma assignment_pass_run pending st w :
  valid_pass pending st ->
  exists k st' w',
    assignment_pass sys cfg pending st w = (Ok st', w') /\
    pass_run sys cfg pending st w k st' w'.
Proof.
  revert st w. induction pending as [|pj rest IH]; intros st w Hv.
  - exists O, st, w. split; [reflexivity|constructor].
  - simpl. rewrite bind_run, assign_job_run;
      [|by destruct Hv as [[? ?]%Forall_cons ?]|by destruct Hv].
    destruct (pick (min_free_mem_mb cfg) (free_mem_dict st)) as [[g m]|] eqn:Hpick.
    + destruct (IH (assigned_state sys cfg pj g m st w) (assigned_world sys cfg pj g st w))
        as (k & st' & w' & Hrun & Hrel); [by eapply valid_pass_step|].
      exists (S k), st', w'. split; [exact Hrun|]. by econstructor.
    + exists O, st, w. split; [reflexivity|]. by constructor.
Qed.

(** Records outside the assigned prefix are not touched. *)
Lemma pass_run_frame pending st w k st' w' :
  pass_run sys cfg pending st w k st' w' ->
  length (all_jobs st') = length (all_jobs st) /\
  forall q, q ∉ fst <$> take k pending -> all_jobs st' !! q = all_jobs st !! q.
Proof.
  induction 1 as [st w|pj rest st w Hp|pj rest st w g m k st' w' Hp Hrun [IHlen IH]];
    [done|done|].
  split; [by rewrite IHlen; simpl; rewrite length_insert|].
  intros q Hq. csimpl in Hq. apply not_elem_of_cons in Hq as [Hne Hq].
  rewrite (IH q Hq). simpl. by rewrite list_lookup_insert_ne.
Qed.


Lemma pass_run_events pending st w k st' w' :
  pass_run sys cfg pending st w k st' w' ->
  Forall (fun pj => (fst pj < length (all_jobs st))%nat) pending ->
  exists evs, trace w' = trace w ++ evs /\ assignment_events (take k pending) evs /\
    commands_file w' = commands_file w /\
    (k = O -> st' = st /\ w' = w) /\
    (k <> O -> jobs_file w' = Some (Some <$> all_jobs st') /\
               last (trace w') = Some (ERewrite (all_jobs st'))).
Proof.
  induction 1 as [st w|pj rest st w Hp|pj rest st w g m k st' w' Hp Hrun IH]; intros Hpos.
  - exists []. rewrite app_nil_r. repeat split; try done. constructor.
  - exists []. rewrite app_nil_r. repeat split; try done. constructor.
  - apply Forall_cons in Hpos as [Hpj Hpos].
    destruct IH as (evs & Htr & Hevs & Hcf & Hzero & Hpos').
    { simpl. by rewrite length_insert. }
    eexists (_ :: _ :: evs). split; [|split; [|split; [|split]]].
    + rewrite Htr. simpl. rewrite <- app_assoc. reflexivity.
    + simpl. econstructor; [reflexivity| |exact Hevs].
      eexists. split; [by apply list_lookup_insert_eq|]. done.
    + by rewrite Hcf.
    + done.
    + intros _. destruct k as [|k].
      * destruct (Hzero eq_refl) as [-> ->]. simpl. split; [done|].
        apply last_Some. eexists (_ ++ [_]). by rewrite <- app_assoc.
      * apply Hpos'. done.
Qed.

(** Each job of the assigned prefix is, at the end of the pass, the record
    made by [dispatch_job]. *)
Lemma pass_run_assigned pending st w k st' w' :
  pass_run sys cfg pending st w k st' w' ->
  NoDup (fst <$> pending) ->
  Forall (fun pj => (fst pj < length (all_jobs st))%nat) pending ->
  forall pj, pj ∈ take k pending ->
    exists w0 g, all_jobs st' !! fst pj = Some (dispatched sys cfg w0 (snd pj) g).
Proof.
  induction 1 as [st w|pj rest st w Hp|pj rest st w g m k st' w' Hp Hrun IH];
    intros Hnd Hpos qj Hq; [inversion Hq|inversion Hq|].
  csimpl in Hnd. apply NoDup_cons in Hnd as [Hhead Hnd].
  apply Forall_cons in Hpos as [Hpj Hpos].
  simpl in Hq. apply elem_of_cons in Hq as [->|Hq].
  - exists w, g. destruct (pass_run_frame _ _ _ _ _ _ Hrun) as [_ Hframe].
    rewrite Hframe; [simpl; by apply list_lookup_insert_eq|].
    intros Hin. apply Hhead.
    apply list_elem_of_fmap in Hin as (x & -> & Hx).
    apply list_elem_of_fmap_2. eapply elem_of_take in Hx as (i & Hi & _).
    by eapply list_elem_of_lookup_2.
  - apply IH; [done| |done]. simpl. by rewrite length_insert.
Qed.

End Dispatch.

Lemma dict_set_new (d : dict) g v :
  g ∉ fst <$> d -> dict_set g v d = d ++ [(g, v)].
Proof.
  induction d as [|[k v'] d IH]; csimpl; [done|].
  intros [Hne Hg]%not_elem_of_cons. apply Z.eqb_neq in Hne. rewrite Hne.
  by rewrite IH.
Qed.


Lemma sorted_sublist {A} (R : relation A) (l k : list A) :
  sublist l k -> StronglySorted R k -> StronglySorted R l.
Proof.
  induction 1 as [|x l k Hs IH|x l k Hs IH]; intros Hk; [constructor| |].
  - apply StronglySorted_cons in Hk as [Hx Hk]. constructor; [by apply IH|].
    rewrite Forall_forall in Hx |- *. intros y Hy. apply Hx.
    by eapply elem_of_sublist.
  - apply StronglySorted_cons in Hk as [_ Hk]. by apply IH.
Qed.

Lemma range_sorted n : StronglySorted Z.lt (range n).
Proof.
  unfold range. apply (StronglySorted_fmap _ lt); [intros; lia|].
  generalize (Z.to_nat n) O. intros k. induction k as [|k IH]; intros a; simpl.
  - constructor.
  - constructor; [apply IH|]. apply Forall_forall. intros x Hx%elem_of_seq. lia.
Qed.

Section Snapshot.
Variable sys : system.

Lemma query_gpu_run gid (d : dict) w :
  try_except (m ← get_gpu_free_mem_mb sys gid; mret (dict_set gid m d))
             NVMLError (mret d) w
  = (Ok (match mem_free sys (trace w) gid with
         | Some free => dict_set gid (inject_Z free / 1024 / 1024)%Q d
         | None => d
         end), push (ENvmlMemory gid) w).
Proof.
  unfold try_except, get_gpu_free_mem_mb, ask. rewrite !bind_run.
  destruct (mem_free sys (trace w) gid); reflexivity.
Qed.

(** The snapshot lists the devices that answered, in the order of the
    queries. *)
Lemma query_gpus_spec ids (d : dict) w :
  NoDup ((fst <$> d) ++ ids) ->
  exists d' w' ids',
    query_gpus sys ids d w = (Ok d', w') /\
    fst <$> d' = (fst <$> d) ++ ids' /\ sublist ids' ids.
Proof.
  revert d w. induction ids as [|gid rest IH]; intros d w Hnd.
  - exists d, w, []. split; [reflexivity|]. by rewrite app_nil_r.
  - simpl. rewrite bind_run, query_gpu_run.
    apply NoDup_app in Hnd as (Hd & Hdis & Hids).
    apply NoDup_cons in Hids as [Hgid Hrest].
    destruct (mem_free sys (trace w) gid) as [free|].
    + assert (gid ∉ fst <$> d) as Hnew by (intros H; apply (Hdis _ H); by left).
      rewrite dict_set_new by done.
      destruct (IH (d ++ [(gid, (inject_Z free / 1024 / 1024)%Q)]) (push (ENvmlMemory gid) w))
        as (d' & w' & ids' & Hrun & Hkeys & Hsub).
      { rewrite fmap_app. csimpl. rewrite <- app_assoc. simpl.
        apply NoDup_app. split; [done|]. split; [|by constructor].
        intros x Hx Hx'. by apply (Hdis x). }
      exists d', w', (gid :: ids'). split; [exact Hrun|]. split; [|by apply sublist_skip].
      rewrite Hkeys, fmap_app. csimpl. by rewrite <- app_assoc.
    + destruct (IH d (push (ENvmlMemory gid) w)) as (d' & w' & ids' & Hrun & Hkeys & Hsub).
      { apply NoDup_app. split; [done|]. split; [|done].
        intros x Hx Hx'. apply (Hdis x Hx). by right. }
      exists d', w', ids'. split; [exact Hrun|]. split; [done|]. by apply sublist_cons.
Qed.

Lemma query_gpus_NoDup ids (d : dict) w :
  NoDup (fst <$> d) ->
  exists d' w', query_gpus sys ids d w = (Ok d', w') /\ NoDup (fst <$> d').
Proof.
  revert d w. induction ids as [|gid rest IH]; intros d w Hnd.
  - by exists d, w.
  - simpl. rewrite bind_run, query_gpu_run. apply IH.
    destruct (mem_free sys (trace w) gid) as [free|]; [|done].
    destruct (decide (gid ∈ fst <$> d)) as [Hin|Hnew].
    + by rewrite dict_set_keys.
    + rewrite dict_set_new, fmap_app by done. csimpl.
      apply NoDup_app. split; [done|]. split; [|apply NoDup_singleton].
      intros x Hx ->%list_elem_of_singleton. done.
Qed.

Lemma get_all_gpus_free_mem_mb_dict ids w :
  exists d w', get_all_gpus_free_mem_mb sys ids w = (Ok d, w') /\ NoDup (fst <$> d).
Proof.
  unfold get_all_gpus_free_mem_mb, ask. rewrite bind_run.
  apply query_gpus_NoDup. constructor.
Qed.

Lemma get_all_gpus_free_mem_mb_order ids w :
  let n := device_count sys (trace w) in
  let queried := match ids with None => range n | Some l => l end in
  NoDup queried ->
  exists d w', get_all_gpus_free_mem_mb sys ids w = (Ok d, w') /\
    sublist (fst <$> d) queried.
Proof.
  intros n queried Hnd. unfold get_all_gpus_free_mem_mb, ask. rewrite bind_run.
  destruct (query_gpus_spec queried [] (push ENvmlCount w) Hnd)
    as (d & w' & ids' & Hrun & Hkeys & Hsub).
  exists d, w'. split; [exact Hrun|]. by rewrite Hkeys.
Qed.
End Snapshot.


Section Claims.
Variable sys : system.
Variable cfg : config.

(** The first job of the queue goes to the suitable device with the most
    free memory, and no later assignment of the pass touches its record. *)
Lemma pass_first_job
    (jobs : list job) (d : dict) (w : world)
    (p : nat) (j : job) (rest : list (nat * job)) :
  pending_jobs jobs = (p, j) :: rest ->
  NoDup (fst <$> d) ->
  (exists x, x ∈ d /\ (min_free_mem_mb cfg <= snd x)%Q) ->
  exists g m st' w' evs,
    assignment_pass sys cfg (pending_jobs jobs)
      {| all_jobs := jobs; free_mem_dict := d; assigned_any_job := false |} w
      = (Ok st', w') /\
    (g, m) ∈ d /\ dict_get g d = Some m /\ (min_free_mem_mb cfg <= m)%Q /\
    (forall x, x ∈ d -> (min_free_mem_mb cfg <= snd x)%Q -> (snd x <= m)%Q) /\
    all_jobs st' !! p = Some (dispatched sys cfg w j g) /\
    gpu_id (dispatched sys cfg w j g) = Some g /\
    trace w' = trace w ++ EPopen (command j) g (job_log sys cfg w) :: evs /\
    jobs_file w' = Some (Some <$> all_jobs st') /\
    commands_file w' = commands_file w.
Proof.
  intros Hpend Hnd (x & Hx & Hxq).
  set (st := {| all_jobs := jobs; free_mem_dict := d; assigned_any_job := false |}).
  assert (Hv : valid_pass (pending_jobs jobs) st) by (split; [apply pending_jobs_valid|done]).
  destruct (assignment_pass_run sys cfg _ st w Hv) as (k & st' & w' & Hrun & Hrel).
  pose proof (pending_jobs_NoDup jobs) as Hpos.
  pose proof (pending_jobs_valid jobs) as Hval.
  rewrite Hpend in Hrel, Hpos, Hval.
  inversion Hrel as [|pj r st0 w0 Hpick|pj r st0 w0 g m k' st1 w1 Hpick Hrest]; subst.
  { exfalso. eapply pick_none; eauto. }
  destruct (pick_some _ _ _ _ Hpick) as (pre & post & Hd & Hm & Hpre & Hpost).
  simpl in Hd.
  apply Forall_cons in Hval as [Hp Hval]. csimpl in Hpos.
  apply NoDup_cons in Hpos as [Hhead _].
  destruct (pass_run_events _ _ _ _ _ _ _ _ Hrel) as (evs0 & _ & _ & Hcf & _ & Hdisk).
  { constructor; [exact Hp|exact Hval]. }
  destruct (pass_run_events _ _ _ _ _ _ _ _ Hrest) as (evs & Htr & _).
  { simpl. by rewrite length_insert. }
  exists g, m, st', w', (ERewrite (<[p := dispatched sys cfg w j g]> jobs) :: evs).
  split; [exact Hrun|].
  split; [|split; [|split; [|split; [|split; [|split; [|split; [|split]]]]]]].
  - rewrite Hd, elem_of_app. right. by left.
  - by eapply dict_get_middle.
  - exact Hm.
  - intros y Hy Hyq. rewrite Hd in Hy. apply elem_of_app in Hy as [Hy|Hy].
    + apply Qlt_le_weak. by apply Hpre.
    + apply elem_of_cons in Hy as [->|Hy]; [apply Qle_refl|by apply Hpost].
  - destruct (pass_run_frame _ _ _ _ _ _ _ _ Hrest) as [_ Hframe].
    rewrite Hframe; [by apply list_lookup_insert_eq|].
    intros Hin. apply Hhead.
    apply list_elem_of_fmap in Hin as (y & -> & Hy).
    apply list_elem_of_fmap_2. eapply elem_of_take in Hy as (i & Hi & _).
    by eapply list_elem_of_lookup_2.
  - reflexivity.
  - rewrite Htr. simpl. by rewrite <- app_assoc.
  - by apply Hdisk.
  - exact Hcf.
Qed.

(** C1.  In a cycle whose refreshed ledger has a pending job and whose
    device snapshot has a device with free memory at or above the
    threshold, the first pending job of the ledger is launched on a device
    [g] of the snapshot whose free memory [m] reaches the threshold and is
    the largest among the devices that reach it; at the end of the cycle the
    ledger file holds that job as running on [g].  With devices 0 and 1
    reporting 8000 MB and 10000 MB and the threshold 6000, the single
    pending job is running on device 1. *)
Theorem first_pending_job_gets_max_free_device
    (w w1 w2 : world) (jobs : list job) (d : dict)
    (p : nat) (j : job) (rest : list (nat * job)) :
  refresh_jobs sys w = (Ok jobs, w1) ->
  pending_jobs jobs = (p, j) :: rest ->
  get_all_gpus_free_mem_mb sys (gpu_ids cfg) w1 = (Ok d, w2) ->
  (exists x, x ∈ d /\ (min_free_mem_mb cfg <= snd x)%Q) ->
  (exists g m w' ledger,
    cycle sys cfg w = (Ok tt, w') /\
    (g, m) ∈ d /\ dict_get g d = Some m /\ (min_free_mem_mb cfg <= m)%Q /\
    (forall x, x ∈ d -> (min_free_mem_mb cfg <= snd x)%Q -> (snd x <= m)%Q) /\
    jobs_file w' = Some (Some <$> ledger) /\
    ledger !! p = Some (dispatched sys cfg w2 j g) /\
    command (dispatched sys cfg w2 j g) = command j /\
    status (dispatched sys cfg w2 j g) = "running" /\
    gpu_id (dispatched sys cfg w2 j g) = Some g /\
    EPopen (command j) g (job_log sys cfg w2) ∈ trace w') /\
  fst (get_all_gpus_free_mem_mb two_gpus None (world_of [pending_job "train"] None))
    = Ok [(0, (inject_Z (8000 * MiB) / 1024 / 1024)%Q);
          (1, (inject_Z (10000 * MiB) / 1024 / 1024)%Q)] /\
  (inject_Z (8000 * MiB) / 1024 / 1024 == 8000)%Q /\
  (inject_Z (10000 * MiB) / 1024 / 1024 == 10000)%Q /\
  jobs_file (snd (cycle two_gpus DEFAULT_CONFIG
                        (world_of [pending_job "train"] None)))
    = Some [Some (running_job "train" 4003 1)].
Proof.
  intros Hrefresh Hpend Hsnap Hsuit.
  split; [|repeat split; vm_compute; reflexivity].
  destruct (get_all_gpus_free_mem_mb_dict sys (gpu_ids cfg) w1) as (d' & w2' & Hsnap' & Hnd).
  rewrite Hsnap in Hsnap'. injection Hsnap' as <- <-.
  destruct (pass_first_job jobs d w2 p j rest Hpend Hnd Hsuit)
    as (g & m & st' & w' & evs & Hrun & Hin & Hget & Hm & Hmax & Hp & _ & Htr & Hdisk & _).
  exists g, m, (push (ESleep (poll_interval cfg)) w'), (all_jobs st').
  split; [|repeat split; try done].
  - unfold cycle. rewrite bind_run, Hrefresh. cbv beta iota.
    rewrite Hpend in Hrun |- *. rewrite bind_run, Hsnap. cbv beta iota.
    destruct d as [|x0 d0]; [destruct Hsuit as (x & Hx & _); inversion Hx|].
    rewrite bind_run, Hrun. reflexivity.
  - simpl. rewrite Htr. apply elem_of_app. left. apply elem_of_app. right. by left.
Qed.



End Claims.

Lemma first_pending_job_witness :
  let w := world_of [pending_job "train"] None in
  let w2 := push (ENvmlMemory 1) (push (ENvmlMemory 0) (push ENvmlCount w)) in
  let d := [(0, (inject_Z (8000 * MiB) / 1024 / 1024)%Q);
            (1, (inject_Z (10000 * MiB) / 1024 / 1024)%Q)] in
  refresh_jobs two_gpus w = (Ok [pending_job "train"], w) /\
  pending_jobs [pending_job "train"] = [(0%nat, pending_job "train")] /\
  get_all_gpus_free_mem_mb two_gpus (gpu_ids DEFAULT_CONFIG) w = (Ok d, w2) /\
  (exists x, x ∈ d /\ (min_free_mem_mb DEFAULT_CONFIG <= snd x)%Q) /\
  exists g m w' ledger,
    cycle two_gpus DEFAULT_CONFIG w = (Ok tt, w') /\
    (g, m) ∈ d /\ (min_free_mem_mb DEFAULT_CONFIG <= m)%Q /\
    jobs_file w' = Some (Some <$> ledger) /\
    ledger !! 0%nat = Some (dispatched two_gpus DEFAULT_CONFIG w2 (pending_job "train") g).
Proof.
  intros w w2 d.
  assert (H1 : refresh_jobs two_gpus w = (Ok [pending_job "train"], w)) by reflexivity.
  assert (H2 : pending_jobs [pending_job "train"] = [(0%nat, pending_job "train")])
    by reflexivity.
  assert (H3 : get_all_gpus_free_mem_mb two_gpus (gpu_ids DEFAULT_CONFIG) w = (Ok d, w2))
    by reflexivity.
  assert (H4 : exists x, x ∈ d /\ (min_free_mem_mb DEFAULT_CONFIG <= snd x)%Q).
  { eexists. split; [left|]. by vm_compute. }
  split; [exact H1|]. split; [exact H2|]. split; [exact H3|]. split; [exact H4|].
  destruct (first_pending_job_gets_max_free_device two_gpus DEFAULT_CONFIG
              w w w2 [pending_job "train"] d 0%nat (pending_job "train") [] H1 H2 H3 H4)
    as [(g & m & w' & ledger & Hc & Hin & _ & Hm & _ & Hfile & Hp & _) _].
  by exists g, m, w', ledger.
Defined.


Lemma sorted_Zlt_NoDup (l : list Z) : StronglySorted Z.lt l -> NoDup l.
Proof.
  induction 1 as [|x l Hs IH Hx]; constructor; [|done].
  intros Hin. rewrite Forall_forall in Hx. specialize (Hx x Hin). lia.
Qed.

Section Claims2.
Variable sys : system.
Variable cfg : config.

Lemma pass_run_trace pending st w k st' w' :
  pass_run sys cfg pending st w k st' w' -> exists evs, trace w' = trace w ++ evs.
Proof.
  induction 1 as [st w|pj rest st w Hp|pj rest st w g m k st' w' Hp Hrun [evs IH]].
  - exists []. by rewrite app_nil_r.
  - exists []. by rewrite app_nil_r.
  - eexists (_ :: _ :: evs). rewrite IH. simpl. by rewrite <- app_assoc.
Qed.



(** C8, as the code has it.  Among the devices that reach the threshold,
    the one chosen is the first, in the iteration order of the snapshot,
    with the largest free memory: no device before it ties with it.  When
    the ids of the snapshot are in increasing order this is the lowest id
    among the tied devices; that is the case when no allow-list is
    configured.  With an allow-list without repetition the snapshot follows
    the order of the allow-list. *)
Theorem tie_break_first_in_snapshot_order (pj : nat * job) (st : pass_state)
    (w : world) (g : Z) (m : Q) :
  valid_pass [pj] st ->
  pick (min_free_mem_mb cfg) (free_mem_dict st) = Some (g, m) ->
  assign_job sys cfg pj st w
    = (Ok (Some (assigned_state sys cfg pj g m st w)), assigned_world sys cfg pj g st w) /\
  (exists pre post,
     free_mem_dict st = pre ++ (g, m) :: post /\
     (forall x, x ∈ pre -> (min_free_mem_mb cfg <= snd x)%Q -> (snd x < m)%Q) /\
     (forall x, x ∈ post -> (min_free_mem_mb cfg <= snd x)%Q -> (snd x <= m)%Q)) /\
  (StronglySorted Z.lt (fst <$> free_mem_dict st) ->
     forall g' m', (g', m') ∈ free_mem_dict st ->
       (min_free_mem_mb cfg <= m')%Q -> (m <= m')%Q -> g <= g') /\
  (forall w0, exists d w1,
     get_all_gpus_free_mem_mb sys None w0 = (Ok d, w1) /\
     StronglySorted Z.lt (fst <$> d)) /\
  (forall ids w0, NoDup ids -> exists d w1,
     get_all_gpus_free_mem_mb sys (Some ids) w0 = (Ok d, w1) /\
     sublist (fst <$> d) ids).
Proof.
  intros [Hpos Hnd] Hpick. apply Forall_cons in Hpos as [Hp _].
  destruct (pick_some _ _ _ _ Hpick) as (pre & post & Hd & Hm & Hpre & Hpost).
  split; [by rewrite assign_job_run, Hpick|].
  split; [by exists pre, post|]. split; [|split].
  - intros Hs g' m' Hin Hthr Hle. rewrite Hd in Hin, Hs.
    apply elem_of_app in Hin as [Hin|Hin].
    + exfalso. apply (Qlt_not_le _ _ (Hpre _ Hin Hthr)). exact Hle.
    + apply elem_of_cons in Hin as [[= -> _]|Hin]; [lia|].
      rewrite fmap_app in Hs. apply StronglySorted_app_1_r in Hs.
      csimpl in Hs. apply StronglySorted_cons in Hs as [Hall _].
      rewrite Forall_forall in Hall.
      specialize (Hall g' (list_elem_of_fmap_2 fst _ _ Hin)). lia.
  - intros w0.
    destruct (get_all_gpus_free_mem_mb_order sys None w0) as (d & w1 & Hrun & Hsub).
    { apply sorted_Zlt_NoDup, range_sorted. }
    exists d, w1. split; [exact Hrun|].
    eapply sorted_sublist; [exact Hsub|apply range_sorted].
  - intros ids w0 Hids.
    exact (get_all_gpus_free_mem_mb_order sys (Some ids) w0 Hids).
Qed.
End Claims2.


Lemma tie_break_first_in_snapshot_order_witness :
  let st := {| all_jobs := [pending_job "train"];
               free_mem_dict := [(1, 8000%Q); (0, 8000%Q)];
               assigned_any_job := false |} in
  let w := world_of [pending_job "train"] None in
  valid_pass [(0%nat, pending_job "train")] st /\
  pick (min_free_mem_mb reversed_ids) (free_mem_dict st) = Some (1, 8000%Q) /\
  exists pre post,
    free_mem_dict st = pre ++ (1, 8000%Q) :: post /\
    (forall x, x ∈ pre -> (min_free_mem_mb reversed_ids <= snd x)%Q -> (snd x < 8000)%Q).
Proof.
  intros st w.
  assert (Hv : valid_pass [(0%nat, pending_job "train")] st).
  { split.
    - repeat constructor.
    - csimpl. apply NoDup_cons. split; [|apply NoDup_singleton].
      intros E%list_elem_of_singleton. discriminate. }
  assert (Hp : pick (min_free_mem_mb reversed_ids) (free_mem_dict st)
               = Some (1, 8000%Q)) by reflexivity.
  split; [exact Hv|]. split; [exact Hp|].
  destruct (tie_break_first_in_snapshot_order tied_gpus reversed_ids
              (0%nat, pending_job "train") st w 1 8000%Q Hv Hp)
    as (_ & (pre & post & Hd & Hpre & _) & _).
  by exists pre, post.
Defined.

(** C8, as stated, fails: with the allow-list [1, 0] and 8000 MB free on
    both devices the snapshot lists device 1 first and the job is launched
    on device 1, although device 0 ties with it. *)
Lemma tie_break_not_lowest_id :
  fst (get_all_gpus_free_mem_mb tied_gpus (gpu_ids reversed_ids)
         (world_of [pending_job "train"] None))
    = Ok [(1, (inject_Z (8000 * MiB) / 1024 / 1024)%Q);
          (0, (inject_Z (8000 * MiB) / 1024 / 1024)%Q)] /\
  jobs_file (snd (cycle tied_gpus reversed_ids (world_of [pending_job "train"] None)))
    = Some [Some (running_job "train" 4003 1)] /\
  ~ (forall (thr : Q) (d : dict) (g : Z) (m : Q),
       NoDup (fst <$> d) -> pick thr d = Some (g, m) ->
       forall g' m', (g', m') ∈ d -> (thr <= m')%Q -> (m' == m)%Q -> g <= g').
Proof.
  split; [vm_compute; reflexivity|]. split; [vm_compute; reflexivity|].
  intros H.
  specialize (H 6000%Q [(1, 8000%Q); (0, 8000%Q)] 1 8000%Q).
  assert (NoDup (fst <$> [(1, 8000%Q); (0, 8000%Q)])) as Hnd.
  { csimpl. apply NoDup_cons. split; [|apply NoDup_singleton].
    intros E%list_elem_of_singleton. lia. }
  assert (1 <= 0) as Habs; [|lia].
  apply (H Hnd eq_refl 0 8000%Q).
  - apply elem_of_cons. right. apply elem_of_cons. by left.
  - by vm_compute.
  - reflexivity.
Qed.

Lemma appended_jobs_file added jobs w :
  jobs_file w = Some (Some <$> jobs) ->
  jobs_file (appended added w) = Some (Some <$> (jobs ++ (pending_job <$> added))).
Proof.
  revert jobs w. induction added as [|c added IH]; intros jobs w Hw; simpl.
  - by rewrite app_nil_r.
  - rewrite (IH (jobs ++ [pending_job c])).
    + by rewrite <- app_assoc.
    + simpl. rewrite Hw. simpl. by rewrite fmap_app.
Qed.

Lemma ingest_total jobs w :
  exists added, ingest jobs w = (Ok (jobs ++ (pending_job <$> added)), appended added w).
Proof.
  unfold ingest, read_commands_file. rewrite bind_run.
  destruct (commands_file w) as [lines|].
  - destruct (ingest_commands_spec (new_commands lines) jobs w) as (added & H & _).
    by exists added.
  - exists []. simpl. by rewrite app_nil_r.
Qed.

Section Persist.
Variable sys : system.
Variable cfg : config.

(** C3.  After each mutation of the ledger the file holds the records in
    memory.  At start-up: after the rewrite that follows reconciliation,
    and after each append of an ingested command.  In a cycle: after the
    rewrite that follows a change of status.  In the assignment pass: each
    assignment ends with a rewrite of the whole ledger, so that in the trace
    of the pass every launch is followed by the rewrite that records it
    before the next launch. *)
Theorem ledger_file_mirrors_memory :
  (forall w loaded, fst (load_jobs w) = Ok loaded ->
     exists jobs0 added,
       fst (reconcile_startup sys loaded w) = Ok jobs0 /\
       let w0 := snd (rewrite_jobs_file jobs0 (snd (reconcile_startup sys loaded w))) in
       jobs_file w0 = Some (Some <$> jobs0) /\
       startup sys w = (Ok (jobs0 ++ (pending_job <$> added)),
                        push ENvmlInit (appended added w0)) /\
       (forall i, jobs_file (appended (take i added) w0)
                  = Some (Some <$> (jobs0 ++ (pending_job <$> take i added)))) /\
       jobs_file (push ENvmlInit (appended added w0))
         = Some (Some <$> (jobs0 ++ (pending_job <$> added)))) /\
  (forall w loaded, fst (load_jobs w) = Ok loaded -> Forall has_handle loaded ->
     exists jobs' w',
       refresh_jobs sys w = (Ok jobs', w') /\
       (jobs' <> loaded ->
          jobs_file w' = Some (Some <$> jobs') /\
          last (trace w') = Some (ERewrite jobs'))) /\
  (forall pj st w st1 w1, valid_pass [pj] st ->
     assign_job sys cfg pj st w = (Ok (Some st1), w1) ->
     jobs_file w1 = Some (Some <$> all_jobs st1) /\
     last (trace w1) = Some (ERewrite (all_jobs st1))) /\
  (forall jobs d w, NoDup (fst <$> d) ->
     exists k st' w' evs,
       assignment_pass sys cfg (pending_jobs jobs)
         {| all_jobs := jobs; free_mem_dict := d; assigned_any_job := false |} w
         = (Ok st', w') /\
       trace w' = trace w ++ evs /\
       assignment_events (take k (pending_jobs jobs)) evs /\
       (k <> O -> jobs_file w' = Some (Some <$> all_jobs st') /\
                  last (trace w') = Some (ERewrite (all_jobs st')))).
Proof.
  split; [|split; [|split]].
  - intros w loaded Hload.
    destruct (reconcile_startup_total sys loaded w) as (jobs0 & Hrec & _).
    set (wr := snd (reconcile_startup sys loaded w)) in *.
    set (w0 := snd (rewrite_jobs_file jobs0 wr)).
    destruct (ingest_total jobs0 w0) as (added & Hing).
    exists jobs0, added. split; [by rewrite Hrec|]. split; [reflexivity|].
    assert (Hprefix : forall l, jobs_file (appended l w0)
                                = Some (Some <$> (jobs0 ++ (pending_job <$> l))))
      by (intros l; by apply appended_jobs_file).
    split; [|split; [intros i; apply Hprefix|apply Hprefix]].
    unfold startup. rewrite bind_run.
    assert (load_jobs w = (Ok loaded, w)) as -> by (unfold load_jobs in *; simpl in *; congruence).
    cbv beta iota. rewrite bind_run, Hrec. fold wr. cbv beta iota.
    rewrite bind_run.
    change (rewrite_jobs_file jobs0 wr) with (Ok tt, w0). cbv beta iota.
    rewrite bind_run, Hing. reflexivity.
  - intros w loaded Hload Hwf.
    destruct (reconcile_running_total sys loaded false w Hwf)
      as (jobs' & ch & Hrun & _ & _ & Hne).
    unfold refresh_jobs. rewrite bind_run.
    assert (load_jobs w = (Ok loaded, w)) as -> by (unfold load_jobs in *; simpl in *; congruence).
    cbv beta iota. rewrite bind_run, Hrun. cbv beta iota. simpl snd. simpl fst.
    destruct ch.
    + eexists jobs', _. split; [reflexivity|]. intros _. split; [reflexivity|].
      simpl. apply last_snoc.
    + eexists jobs', _. split; [reflexivity|]. intros Hneq.
      by specialize (Hne Hneq).
  - intros pj st w st1 w1 [[Hp _]%Forall_cons Hnd] Hrun.
    rewrite assign_job_run in Hrun by done.
    destruct (pick _ _) as [[g m]|]; [|congruence].
    injection Hrun as <- <-. split; [reflexivity|].
    simpl. apply last_Some. eexists (_ ++ [_]). by rewrite <- app_assoc.
  - intros jobs d w Hnd.
    set (st := {| all_jobs := jobs; free_mem_dict := d; assigned_any_job := false |}).
    assert (Hv : valid_pass (pending_jobs jobs) st) by (split; [apply pending_jobs_valid|done]).
    destruct (assignment_pass_run sys cfg _ st w Hv) as (k & st' & w' & Hrun & Hrel).
    destruct (pass_run_events _ _ _ _ _ _ _ _ Hrel (pending_jobs_valid jobs))
      as (evs & Htr & Hevs & _ & _ & Hdisk).
    by exists k, st', w', evs.
Qed.
End Persist.

(** * Further properties *)

Lemma load_jobs_run w : load_jobs w = (Ok (ledger_of w), w).
Proof. reflexivity. Qed.

Lemma omap_id_Some {A} (l : list A) : omap id (Some <$> l) = l.
Proof. induction l as [|x l IH]; csimpl; [done|]. by rewrite IH. Qed.

Lemma ledger_of_written w (l : list job) :
  jobs_file w = Some (Some <$> l) -> ledger_of w = l.
Proof. unfold ledger_of. intros ->. apply omap_id_Some. Qed.

Lemma extends_refl w : extends w w.
Proof.
  split; [done|]. split; [done|]. exists []. by rewrite app_nil_r.
Qed.

Lemma extends_trans w1 w2 w3 : extends w1 w2 -> extends w2 w3 -> extends w1 w3.
Proof.
  intros (Hj & Hc & evs & Ht & He) (Hj' & Hc' & evs' & Ht' & He').
  split; [congruence|]. split; [congruence|].
  exists (evs ++ evs'). split; [by rewrite Ht', Ht, app_assoc|].
  by apply Forall_app.
Qed.

Lemma extends_push e w : launches_or_writes e = false -> extends w (push e w).
Proof.
  intros He. split; [done|]. split; [done|]. exists [e]. split; [done|].
  by constructor.
Qed.

Section Cycle.
Variable sys : system.
Variable cfg : config.

Lemma is_process_running_extends p w :
  extends w (snd (is_process_running sys p w)).
Proof.
  rewrite is_process_running_run. destruct p as [z|]; [|apply extends_refl].
  destruct (z <=? 0); [apply extends_refl|]. by apply extends_push.
Qed.

Lemma reconcile_running_job_step j w :
  has_handle j ->
  exists j' c w',
    reconcile_running_job sys j w = (Ok (j', c), w') /\
    exit_step j j' /\ (j' <> j -> c = true) /\ extends w w' /\
    (status j <> "running" -> j' = j /\ c = false /\ w' = w).
Proof.
  intros Hh.
  destruct (decide (status j = "running")) as [Hst|Hst].
  - destruct (alive_at sys w (pid j)) eqn:Ha.
    + rewrite reconcile_running_job_other by auto.
      exists j, false, (snd (is_process_running sys (pid j) w)).
      apply String.eqb_eq in Hst as Hst'. rewrite Hst'.
      split; [done|]. split; [by left|]. split; [done|].
      split; [apply is_process_running_extends|done].
    + destruct (pid j) as [p|] eqn:Hp; [|by destruct (Hh Hst)].
      rewrite (reconcile_running_job_dead sys j p w) by auto.
      eexists _, true, _. split; [reflexivity|]. split; [|split; [done|split; [|done]]].
      * right. split; [done|]. unfold exit_classification.
        destruct (waitpid_result sys _ p WNOHANG) as [[q [|?|?]]|]; auto.
      * eapply extends_trans; [apply is_process_running_extends|].
        by apply extends_push.
  - rewrite reconcile_running_job_other by auto.
    exists j, false, w. apply String.eqb_neq in Hst as Hst'. rewrite Hst'.
    split; [done|]. split; [by left|]. split; [done|]. split; [apply extends_refl|done].
Qed.

Lemma reconcile_running_steps l ch w :
  Forall has_handle l ->
  exists l' ch' w',
    reconcile_running sys l ch w = (Ok (l', ch'), w') /\
    Forall2 exit_step l l' /\ (l' <> l -> ch' = true) /\ (ch = true -> ch' = true) /\
    extends w w' /\
    (Forall (fun j => status j <> "running") l -> l' = l /\ ch' = ch /\ w' = w).
Proof.
  intros Hwf. revert ch w. induction Hwf as [|j l Hj Hwf IH]; intros ch w; simpl.
  - exists [], ch, w. split; [done|]. split; [constructor|].
    split; [done|]. split; [done|]. split; [apply extends_refl|done].
  - rewrite bind_run.
    destruct (reconcile_running_job_step j w Hj) as (j' & c & w1 & -> & Hstep & Hc & Hext & Hq).
    cbv beta iota. rewrite bind_run. cbn [fst snd].
    destruct (IH (ch || c) w1) as (l' & ch' & w2 & -> & Hsteps & Hne & Hch & Hext' & Hq').
    exists (j' :: l'), ch', w2. split; [done|]. split; [by constructor|].
    split; [|split; [|split]].
    + intros Hneq. destruct (decide (j' = j)) as [->|Hj'].
      * apply Hne. congruence.
      * apply Hch. rewrite (Hc Hj'). apply orb_true_r.
    + intros ->. by apply Hch.
    + by eapply extends_trans.
    + intros [Hjq Hlq]%Forall_cons.
      destruct (Hq Hjq) as (-> & -> & ->). destruct (Hq' Hlq) as (-> & -> & ->).
      by rewrite orb_false_r.
Qed.

Lemma exit_step_has_handle j j' : exit_step j j' -> has_handle j -> has_handle j'.
Proof.
  intros [->|[_ [->| ->]]] Hh; [done| |]; intros Hst; simpl in Hst; discriminate.
Qed.

(** The head of a cycle on a ledger whose running records carry a pid. *)
Lemma refresh_jobs_spec w :
  Forall has_handle (ledger_of w) ->
  exists jobs1 w1,
    refresh_jobs sys w = (Ok jobs1, w1) /\
    Forall2 exit_step (ledger_of w) jobs1 /\
    ledger_of w1 = jobs1 /\
    commands_file w1 = commands_file w /\
    Forall has_handle jobs1 /\
    (Forall (fun j => status j <> "running") (ledger_of w) ->
       jobs1 = ledger_of w /\ w1 = w).
Proof.
  intros Hwf.
  destruct (reconcile_running_steps (ledger_of w) false w Hwf)
    as (l' & ch & w1 & Hrun & Hsteps & Hne & _ & (Hjf & Hcf & _) & Hq).
  assert (Hwf' : Forall has_handle l').
  { clear -Hsteps Hwf. induction Hsteps as [|j j' l l' Hs Hss IH]; [constructor|].
    apply Forall_cons in Hwf as [Hj Hl]. constructor; [by eapply exit_step_has_handle|auto]. }
  unfold refresh_jobs. rewrite bind_run, load_jobs_run. cbv beta iota.
  rewrite bind_run, Hrun. cbv beta iota. cbn [fst snd].
  destruct ch.
  - eexists l', _. split; [reflexivity|]. split; [exact Hsteps|].
    split; [by apply ledger_of_written|]. split; [exact Hcf|]. split; [exact Hwf'|].
    intros Hall. by destruct (Hq Hall) as (_ & ? & _).
  - eexists l', _. split; [reflexivity|]. split; [exact Hsteps|].
    assert (l' = ledger_of w) as Heq.
    { destruct (decide (l' = ledger_of w)) as [|Hneq]; [done|]. by specialize (Hne Hneq). }
    split; [unfold ledger_of; by rewrite Hjf|]. split; [exact Hcf|]. split; [exact Hwf'|].
    intros Hall. split; [exact Heq|]. by destruct (Hq Hall) as (_ & _ & ?).
Qed.
End Cycle.

Lemma elem_of_dict_set (d : dict) g v x :
  x ∈ dict_set g v d -> x = (g, v) \/ x ∈ d.
Proof.
  induction d as [|[k v'] d IH]; simpl.
  - intros ->%list_elem_of_singleton. by left.
  - destruct (g =? k).
    + intros [->|H]%elem_of_cons; [by left|]. right. by right.
    + intros [->|H]%elem_of_cons; [right; by left|].
      destruct (IH H) as [->|H']; [by left|]. right. by right.
Qed.

Lemma keys_dict_set (d : dict) g v g' :
  g' ∈ fst <$> dict_set g v d <-> g' = g \/ g' ∈ fst <$> d.
Proof.
  destruct (decide (g ∈ fst <$> d)) as [Hin|Hnew].
  - rewrite dict_set_keys by done. split; [by right|]. by intros [->|].
  - rewrite dict_set_new, fmap_app, elem_of_app by done. csimpl.
    rewrite list_elem_of_singleton. tauto.
Qed.

Section Snapshot2.
Variable sys : system.

Lemma query_gpus_sound ids (d : dict) w :
  exists d' w',
    query_gpus sys ids d w = (Ok d', w') /\
    jobs_file w' = jobs_file w /\ commands_file w' = commands_file w /\
    trace w' = trace w ++ (ENvmlMemory <$> ids) /\
    (forall g m, (g, m) ∈ d' -> (g, m) ∈ d \/ (g ∈ ids /\ reading sys g m)) /\
    (forall g, g ∈ fst <$> d -> g ∈ fst <$> d') /\
    (forall g, g ∈ ids -> (forall h, mem_free sys h g <> None) -> g ∈ fst <$> d').
Proof.
  revert d w. induction ids as [|gid rest IH]; intros d w.
  - exists d, w. split; [reflexivity|]. split; [done|]. split; [done|].
    split; [by rewrite app_nil_r|]. split; [by left|]. split; [done|].
    intros g Hg. inversion Hg.
  - simpl. rewrite bind_run, query_gpu_run.
    set (d1 := match mem_free sys (trace w) gid with
               | Some free => dict_set gid (inject_Z free / 1024 / 1024)%Q d
               | None => d end).
    destruct (IH d1 (push (ENvmlMemory gid) w))
      as (d' & w' & Hrun & Hjf & Hcf & Htr & Hsound & Hkeep & Hcomplete).
    exists d', w'. split; [exact Hrun|]. split; [done|]. split; [done|].
    split; [rewrite Htr; simpl; by rewrite <- app_assoc|].
    assert (Hd1 : forall g, g ∈ fst <$> d -> g ∈ fst <$> d1).
    { intros g Hg. unfold d1. destruct (mem_free sys (trace w) gid); [|done].
      apply keys_dict_set. by right. }
    split; [|split].
    + intros g m Hin. destruct (Hsound g m Hin) as [Hd|[Hg Hr]].
      * unfold d1 in Hd. destruct (mem_free sys (trace w) gid) as [free|] eqn:Hfree;
          [|by left].
        apply elem_of_dict_set in Hd as [[= -> ->]|Hd]; [|by left].
        right. split; [by left|]. by exists (trace w), free.
      * right. split; [by right|done].
    + intros g Hg. by apply Hkeep, Hd1.
    + intros g [->|Hg]%elem_of_cons Hans; [|by apply Hcomplete].
      apply Hkeep. unfold d1.
      destruct (mem_free sys (trace w) gid) as [free|] eqn:Hfree;
        [|by destruct (Hans (trace w))].
      apply keys_dict_set. by left.
Qed.

Lemma get_all_gpus_free_mem_mb_files ids w :
  exists d w',
    get_all_gpus_free_mem_mb sys ids w = (Ok d, w') /\
    jobs_file w' = jobs_file w /\ commands_file w' = commands_file w /\
    NoDup (fst <$> d).
Proof.
  destruct (get_all_gpus_free_mem_mb_dict sys ids w) as (d & w' & Hrun & Hnd).
  exists d, w'. split; [exact Hrun|].
  unfold get_all_gpus_free_mem_mb, ask in Hrun. rewrite bind_run in Hrun.
  cbv beta iota in Hrun.
  destruct (query_gpus_sound
              (match ids with
               | None => range (device_count sys (trace w))
               | Some l => l
               end) [] (push ENvmlCount w))
    as (d0 & w0 & Hrun0 & Hjf & Hcf & _).
  rewrite Hrun0 in Hrun. injection Hrun as -> ->. done.
Qed.

Lemma get_all_gpus_free_mem_mb_quiet ids w :
  exists d w',
    get_all_gpus_free_mem_mb sys ids w = (Ok d, w') /\
    extends w w' /\ NoDup (fst <$> d) /\
    (forall g m, (g, m) ∈ d -> reading sys g m).
Proof.
  destruct (get_all_gpus_free_mem_mb_dict sys ids w) as (d & w' & Hrun & Hnd).
  exists d, w'. split; [exact Hrun|].
  unfold get_all_gpus_free_mem_mb, ask in Hrun. rewrite bind_run in Hrun.
  cbv beta iota in Hrun.
  destruct (query_gpus_sound
              (match ids with
               | None => range (device_count sys (trace w))
               | Some l => l
               end) [] (push ENvmlCount w))
    as (d0 & w0 & Hrun0 & Hjf & Hcf & Htr & Hsound & _).
  rewrite Hrun0 in Hrun. injection Hrun as -> ->.
  split; [|split; [done|]].
  - split; [done|]. split; [done|]. eexists (ENvmlCount :: _).
    split; [rewrite Htr; simpl; by rewrite <- app_assoc|].
    constructor; [done|]. apply Forall_fmap, Forall_forall. done.
  - intros g m Hin. destruct (Hsound g m Hin) as [Hnil|[_ H]]; [inversion Hnil|done].
Qed.


End Snapshot2.

Lemma record_step_has_handle sys cfg j j' :
  record_step sys cfg j j' -> has_handle j -> has_handle j'.
Proof.
  intros [j0|j0 s Hst [-> | ->]|j0 w g Hst] Hh; [done| | |];
    intros Hst'; simpl in *; discriminate.
Qed.

Lemma record_step_command sys cfg j j' :
  record_step sys cfg j j' -> command j' = command j.
Proof. by intros [j0|j0 s Hst Hs|j0 w g Hst]. Qed.

Section Cycle2.
Variable sys : system.
Variable cfg : config.

(** What the assignment pass of a cycle does to the ledger. *)
Lemma assignment_pass_records jobs (d : dict) w :
  NoDup (fst <$> d) ->
  exists k st' w' evs,
    assignment_pass sys cfg (pending_jobs jobs)
      {| all_jobs := jobs; free_mem_dict := d; assigned_any_job := false |} w
      = (Ok st', w') /\
    Forall2 (record_step sys cfg) jobs (all_jobs st') /\
    commands_file w' = commands_file w /\
    trace w' = trace w ++ evs /\
    assignment_events (take k (pending_jobs jobs)) evs /\
    (k = O -> all_jobs st' = jobs /\ w' = w) /\
    (k <> O -> jobs_file w' = Some (Some <$> all_jobs st')).
Proof.
  intros Hnd.
  set (st := {| all_jobs := jobs; free_mem_dict := d; assigned_any_job := false |}).
  assert (Hv : valid_pass (pending_jobs jobs) st) by (split; [apply pending_jobs_valid|done]).
  destruct (assignment_pass_run sys cfg _ st w Hv) as (k & st' & w' & Hrun & Hrel).
  destruct (pass_run_events _ _ _ _ _ _ _ _ Hrel (pending_jobs_valid jobs))
    as (evs & Htr & Hevs & Hcf & Hzero & Hdisk).
  destruct (pass_run_frame _ _ _ _ _ _ _ _ Hrel) as [Hlen Hframe].
  exists k, st', w', evs. split; [exact Hrun|].
  split; [|split; [done|split; [done|split; [done|split]]]].
  - apply Forall2_same_length_lookup_2; [by symmetry|].
    intros q j j' Hq Hq'.
    destruct (decide (q ∈ fst <$> take k (pending_jobs jobs))) as [Hin|Hout].
    + apply list_elem_of_fmap in Hin as ([q0 j0] & -> & Hin). simpl in *.
      assert ((q0, j0) ∈ pending_jobs jobs) as Hpend
        by (eapply elem_of_sublist; [exact Hin|apply sublist_take]).
      apply pending_jobs_elem in Hpend as [Hj0 Hst].
      destruct (pass_run_assigned _ _ _ _ _ _ _ _ Hrel (pending_jobs_NoDup jobs)
                  (pending_jobs_valid jobs) _ Hin) as (w0 & g & HJ).
      simpl in HJ, Hq. rewrite HJ in Hq'. rewrite Hj0 in Hq.
      injection Hq as <-. injection Hq' as <-. by constructor.
    + rewrite (Hframe q Hout) in Hq'. simpl in Hq'. rewrite Hq in Hq'.
      injection Hq' as <-. constructor.
  - intros Hk. destruct (Hzero Hk) as [-> ->]. done.
  - intros Hk. by apply Hdisk.
Qed.

Lemma exit_step_record_step j j' : exit_step j j' -> record_step sys cfg j j'.
Proof.
  intros [->|[Hst [-> | ->]]]; [constructor| |]; constructor; auto.
Qed.

Lemma exit_then_launch j j1 j2 :
  exit_step j j1 -> record_step sys cfg j1 j2 ->
  (j1 = j \/ j2 = j1) /\ record_step sys cfg j j2.
Proof.
  intros Hexit Hstep. destruct Hexit as [->|[Hst Hs]].
  - split; [by left|done].
  - assert (status j1 <> "pending" /\ status j1 <> "running") as [Hp Hr]
      by (destruct Hs as [-> | ->]; simpl; split; discriminate).
    inversion Hstep as [j0|j0 s Hst' Hs'|j0 w g Hst']; subst; try contradiction.
    split; [by right|]. by apply exit_step_record_step; right.
Qed.

(** One cycle on a ledger whose running records carry a pid. *)
Lemma cycle_spec w :
  Forall has_handle (ledger_of w) ->
  exists w',
    cycle sys cfg w = (Ok tt, w') /\
    Forall2 (record_step sys cfg) (ledger_of w) (ledger_of w') /\
    commands_file w' = commands_file w.
Proof.
  intros Hwf.
  destruct (refresh_jobs_spec sys w Hwf)
    as (jobs1 & w1 & Hrefresh & Hsteps & Hled & Hcf & Hwf1 & _).
  assert (Hbase : Forall2 (record_step sys cfg) (ledger_of w) jobs1).
  { eapply Forall2_impl; [exact Hsteps|]. apply exit_step_record_step. }
  unfold cycle. rewrite bind_run, Hrefresh. cbv beta iota.
  destruct (pending_jobs jobs1) as [|pj rest] eqn:Hpend.
  { eexists. split; [reflexivity|]. unfold ledger_of in *. simpl. by rewrite Hled. }
  rewrite bind_run.
  destruct (get_all_gpus_free_mem_mb_files sys (gpu_ids cfg) w1)
    as (d & w2 & Hsnap & Hjf2 & Hcf2 & Hnd).
  rewrite Hsnap. cbv beta iota.
  assert (Hled2 : ledger_of w2 = jobs1) by (unfold ledger_of in *; by rewrite Hjf2).
  destruct d as [|x d].
  { eexists. split; [reflexivity|]. split; [|simpl; congruence].
    unfold ledger_of in *. simpl. by rewrite Hled2. }
  rewrite bind_run. rewrite <- Hpend.
  destruct (assignment_pass_records jobs1 (x :: d) w2 Hnd)
    as (k & st' & w' & evs & Hrun & Hrec & Hcf' & _ & _ & Hzero & Hdisk).
  rewrite Hrun. cbv beta iota.
  eexists. split; [reflexivity|]. split; [|simpl; congruence].
  assert (ledger_of w' = all_jobs st') as Hfinal.
  { destruct (decide (k = O)) as [Hk|Hk].
    - destruct (Hzero Hk) as [-> ->]. exact Hled2.
    - apply ledger_of_written. by apply Hdisk. }
  assert (ledger_of (push (ESleep (poll_interval cfg)) w') = all_jobs st') as ->
    by exact Hfinal.
  clear -Hsteps Hrec.
  revert Hrec. generalize (all_jobs st'). intros l2 Hrec. revert l2 Hrec.
  induction Hsteps as [|j j1 l l1 Hs Hss IH]; intros l2 Hrec.
  - inversion Hrec. constructor.
  - inversion Hrec as [|? j2 ? l2' Hstep Hrest]; subst.
    constructor; [|by apply IH]. by eapply exit_then_launch.
Qed.

Lemma cycle_has_handle w w' :
  Forall has_handle (ledger_of w) ->
  cycle sys cfg w = (Ok tt, w') ->
  Forall has_handle (ledger_of w').
Proof.
  intros Hwf Hrun. destruct (cycle_spec w Hwf) as (w0 & Hrun0 & Hsteps & _).
  rewrite Hrun in Hrun0. injection Hrun0 as <-.
  clear -Hsteps Hwf. induction Hsteps as [|j j' l l' Hs Hss IH]; [constructor|].
  apply Forall_cons in Hwf as [Hj Hl].
  constructor; [by eapply record_step_has_handle|auto].
Qed.

(** Any number of cycles. *)
Lemma cycles_spec n w :
  Forall has_handle (ledger_of w) ->
  exists w',
    cycles sys cfg n w = (Ok tt, w') /\
    Forall2 (record_steps sys cfg) (ledger_of w) (ledger_of w') /\
    commands_file w' = commands_file w /\
    Forall has_handle (ledger_of w').
Proof.
  revert w. induction n as [|n IH]; intros w Hwf.
  - exists w. split; [reflexivity|]. split; [|done].
    apply Forall2_same_length_lookup_2; [done|].
    intros i x y Hx Hy. rewrite Hx in Hy. injection Hy as <-. constructor.
  - simpl. rewrite bind_run.
    destruct (cycle_spec w Hwf) as (w1 & Hrun & Hsteps & Hcf).
    rewrite Hrun. cbv beta iota.
    destruct (IH w1 (cycle_has_handle w w1 Hwf Hrun)) as (w' & Hrun' & Hsteps' & Hcf' & Hwf').
    exists w'. split; [exact Hrun'|]. split; [|split; [congruence|done]].
    clear -Hsteps Hsteps'. revert Hsteps'. generalize (ledger_of w'). intros l3.
    revert l3. induction Hsteps as [|j1 j2 l1 l2 Hs Hss IH']; intros l3 H3.
    + inversion H3. constructor.
    + inversion H3 as [|? j3 ? l3' Hs3 Hss3]; subst.
      constructor; [by econstructor|by apply IH'].
Qed.
End Cycle2.

Lemma record_steps_settled sys cfg j j' :
  record_steps sys cfg j j' -> status j <> "pending" ->
  command j' = command j /\ pid j' = pid j /\ gpu_id j' = gpu_id j /\
  start_time j' = start_time j /\ log_file j' = log_file j /\
  status j' <> "pending" /\
  (status j <> "running" -> j' = j).
Proof.
  induction 1 as [j|j1 j2 j3 Hstep Hsteps IH]; intros Hp; [done|].
  inversion Hstep as [j0|j0 s Hst Hs|j0 w g Hst]; subst.
  - by apply IH.
  - assert (status (set_status s j1) <> "pending") as Hp2
      by (destruct Hs as [-> | ->]; simpl; discriminate).
    destruct (IH Hp2) as (Hc & Hpid & Hg & Hs' & Hl & Hp' & Hterm).
    simpl in *. repeat split; done.
  - contradiction.
Qed.

Lemma record_steps_command sys cfg j j' :
  record_steps sys cfg j j' -> command j' = command j.
Proof.
  induction 1 as [j|j1 j2 j3 Hstep Hsteps IH]; [done|].
  rewrite IH. by eapply record_step_command.
Qed.

Section Run.
Variable sys : system.
Variable cfg : config.






(** X4.  Over any number of cycles the ledger keeps its length and each
    record its command.  A record that is not pending keeps its pid, device,
    start time and log file and never becomes pending again; a record that
    is neither pending nor running is never changed. *)
Theorem cycles_keep_settled_records (n : nat) (w : world) :
  Forall has_handle (ledger_of w) ->
  exists w',
    cycles sys cfg n w = (Ok tt, w') /\
    length (ledger_of w') = length (ledger_of w) /\
    forall (i : nat) (j : job), ledger_of w !! i = Some j ->
      exists j', ledger_of w' !! i = Some j' /\
        command j' = command j /\
        (status j <> "pending" ->
           pid j' = pid j /\ gpu_id j' = gpu_id j /\
           start_time j' = start_time j /\ log_file j' = log_file j /\
           status j' <> "pending") /\
        (status j <> "pending" -> status j <> "running" -> j' = j).
Proof.
  intros Hwf.
  destruct (cycles_spec sys cfg n w Hwf) as (w' & Hrun & Hsteps & _).
  exists w'. split; [exact Hrun|]. split; [symmetry; by eapply Forall2_length|].
  intros i j Hi.
  destruct (Forall2_lookup_l _ _ _ _ _ Hsteps Hi) as (j' & Hi' & Hstep).
  exists j'. split; [exact Hi'|]. split; [by eapply record_steps_command|].
  split.
  - intros Hp. by destruct (record_steps_settled _ _ _ _ Hstep Hp) as (_ & ? & ? & ? & ? & ? & _).
  - intros Hp Hr. destruct (record_steps_settled _ _ _ _ Hstep Hp) as (_ & _ & _ & _ & _ & _ & H).
    by apply H.
Qed.

End Run.

Section Blocked.
Variable sys : system.
Variable cfg : config.

Lemma assignment_pass_blocked pending st w :
  pick (min_free_mem_mb cfg) (free_mem_dict st) = None ->
  assignment_pass sys cfg pending st w = (Ok st, w).
Proof.
  intros Hpick. destruct pending as [|pj rest]; [reflexivity|].
  simpl. rewrite bind_run. unfold assign_job.
  destruct (pick_sorted (min_free_mem_mb cfg) (free_mem_dict st))
    as [[-> _]|(g & m & r & _ & Hsome)]; [reflexivity|congruence].
Qed.

Lemma cycle_blocked w :
  Forall (fun j => status j <> "running") (ledger_of w) ->
  (forall h g bytes, mem_free sys h g = Some bytes ->
     ~ (min_free_mem_mb cfg <= inject_Z bytes / 1024 / 1024)%Q) ->
  exists w', cycle sys cfg w = (Ok tt, w') /\ extends w w'.
Proof.
  intros Hidle Hlow.
  assert (Hwf : Forall has_handle (ledger_of w)).
  { eapply Forall_impl; [exact Hidle|]. intros j Hj Hr. contradiction. }
  destruct (refresh_jobs_spec sys w Hwf) as (jobs1 & w1 & Hrefresh & _ & _ & _ & _ & Hsame).
  destruct (Hsame Hidle) as [-> ->].
  unfold cycle. rewrite bind_run, Hrefresh. cbv beta iota.
  destruct (pending_jobs (ledger_of w)) as [|pj rest] eqn:Hpend.
  { eexists. split; [reflexivity|]. by apply extends_push. }
  rewrite bind_run.
  destruct (get_all_gpus_free_mem_mb_quiet sys (gpu_ids cfg) w)
    as (d & w2 & Hsnap & Hext & Hnd & Hread).
  rewrite Hsnap. cbv beta iota.
  destruct d as [|x d].
  { eexists. split; [reflexivity|]. eapply extends_trans; [exact Hext|]. by apply extends_push. }
  rewrite bind_run, assignment_pass_blocked.
  - eexists. split; [reflexivity|]. eapply extends_trans; [exact Hext|]. by apply extends_push.
  - simpl. apply pick_none. intros [g m] Hin Hle.
    destruct (Hread g m Hin) as (h & bytes & Hfree & ->).
    by apply (Hlow h g bytes Hfree).
Qed.

(** X5.  When no record is running and every reading of every device is
    below the threshold, any number of cycles leaves the ledger file as it
    is, so pending jobs stay pending, and none of the events of these cycles
    starts a process or writes the ledger. *)
Theorem blocked_cycles_only_sleep (n : nat) (w : world) :
  Forall (fun j => status j <> "running") (ledger_of w) ->
  (forall h g bytes, mem_free sys h g = Some bytes ->
     ~ (min_free_mem_mb cfg <= inject_Z bytes / 1024 / 1024)%Q) ->
  exists w' evs,
    cycles sys cfg n w = (Ok tt, w') /\
    jobs_file w' = jobs_file w /\
    ledger_of w' = ledger_of w /\
    trace w' = trace w ++ evs /\
    Forall (fun e => launches_or_writes e = false) evs.
Proof.
  intros Hidle Hlow.
  assert (H : exists w', cycles sys cfg n w = (Ok tt, w') /\ extends w w').
  { revert w Hidle. induction n as [|n IH]; intros w Hidle.
    - exists w. split; [reflexivity|apply extends_refl].
    - simpl. rewrite bind_run.
      destruct (cycle_blocked w Hidle Hlow) as (w1 & -> & Hext). cbv beta iota.
      destruct (IH w1) as (w' & Hrun & Hext').
      { destruct Hext as (Hjf & _). unfold ledger_of. by rewrite Hjf. }
      exists w'. split; [exact Hrun|]. by eapply extends_trans. }
  destruct H as (w' & Hrun & Hjf & _ & evs & Htr & Hq).
  exists w', evs. split; [exact Hrun|]. split; [exact Hjf|].
  split; [unfold ledger_of; by rewrite Hjf|]. done.
Qed.
End Blocked.

Lemma dict_set_elem (d : dict) g v : (g, v) ∈ dict_set g v d.
Proof.
  induction d as [|[k v'] d IH]; simpl; [by left|].
  destruct (g =? k); [by left|by right].
Qed.


Section Booking.
Variable sys : system.
Variable cfg : config.



Lemma pass_run_unblocked pending st w k st' w' :
  pass_run sys cfg pending st w k st' w' ->
  (min_free_mem_mb cfg <= 0)%Q ->
  (exists x, x ∈ free_mem_dict st /\ (min_free_mem_mb cfg <= snd x)%Q) ->
  k = length pending.
Proof.
  induction 1 as [st w|pj rest st w Hp|pj rest st w g m k st' w' Hp Hrun IH];
    intros Hthr (x & Hx & Hq).
  - done.
  - exfalso. eapply pick_none; eauto.
  - simpl. f_equal. apply IH; [done|].
    destruct (pick_some _ _ _ _ Hp) as (_ & _ & _ & Hm & _).
    exists (g, (m - min_free_mem_mb cfg)%Q). split; [apply dict_set_elem|]. simpl. lra.
Qed.

(** X9.  With a threshold of zero or less and a device that reaches it, the
    assignment pass never stops early: every pending job of the ledger is
    launched in the one pass. *)
Theorem nonpositive_threshold_never_blocks (jobs : list job) (d : dict) (w : world) :
  NoDup (fst <$> d) ->
  (min_free_mem_mb cfg <= 0)%Q ->
  (exists x, x ∈ d /\ (min_free_mem_mb cfg <= snd x)%Q) ->
  exists st' w' evs,
    assignment_pass sys cfg (pending_jobs jobs)
      {| all_jobs := jobs; free_mem_dict := d; assigned_any_job := false |} w
      = (Ok st', w') /\
    trace w' = trace w ++ evs /\
    assignment_events (pending_jobs jobs) evs /\
    forall p j, jobs !! p = Some j -> status j = "pending" ->
      exists J, all_jobs st' !! p = Some J /\ status J = "running" /\
                command J = command j.
Proof.
  intros Hnd Hthr Hsuit.
  set (st := {| all_jobs := jobs; free_mem_dict := d; assigned_any_job := false |}).
  assert (Hv : valid_pass (pending_jobs jobs) st) by (split; [apply pending_jobs_valid|done]).
  destruct (assignment_pass_run sys cfg _ st w Hv) as (k & st' & w' & Hrun & Hrel).
  pose proof (pass_run_unblocked _ _ _ _ _ _ Hrel Hthr Hsuit) as Hk.
  destruct (pass_run_events _ _ _ _ _ _ _ _ Hrel (pending_jobs_valid jobs))
    as (evs & Htr & Hevs & _).
  rewrite Hk, firstn_all in Hevs.
  exists st', w', evs. split; [exact Hrun|]. split; [exact Htr|]. split; [exact Hevs|].
  intros p j Hp Hst.
  assert ((p, j) ∈ take k (pending_jobs jobs)) as Hin.
  { rewrite Hk, firstn_all. by apply pending_jobs_elem. }
  destruct (pass_run_assigned _ _ _ _ _ _ _ _ Hrel (pending_jobs_NoDup jobs)
              (pending_jobs_valid jobs) _ Hin) as (w0 & g & HJ).
  eexists. split; [exact HJ|]. done.
Qed.
End Booking.

Section Misc.
Variable sys : system.
Variable cfg : config.

Lemma pass_run_logs pending st w k st' w' :
  pass_run sys cfg pending st w k st' w' ->
  forall evs c g log,
    trace w' = trace w ++ evs -> EPopen c g log ∈ evs ->
    exists w0, log = job_log sys cfg w0.
Proof.
  induction 1 as [st w|pj rest st w Hp|pj rest st w g2 m2 k st' w' Hp Hrun IH];
    intros evs c g log Htr Hin.
  - rewrite <- (app_nil_r (trace w)) in Htr at 1. apply app_inv_head in Htr.
    subst. inversion Hin.
  - rewrite <- (app_nil_r (trace w)) in Htr at 1. apply app_inv_head in Htr.
    subst. inversion Hin.
  - destruct (pass_run_trace _ _ _ _ _ _ _ _ Hrun) as (evs' & Htr0).
    pose proof Htr0 as Htr'. simpl in Htr'. rewrite <- app_assoc in Htr'.
    rewrite Htr' in Htr. apply app_inv_head in Htr. subst evs.
    apply elem_of_cons in Hin as [[= _ _ ->]|Hin]; [by exists w|].
    apply elem_of_cons in Hin as [[=]|Hin].
    by apply (IH evs' c g log).
Qed.

(** X10.  The name of the log file has the time to the second only: when
    the clock shows the same second throughout an assignment pass, every
    process the pass starts writes to the same log file, and every launched
    record carries that file name. *)
Theorem same_second_same_log_file (jobs : list job) (d : dict) (w : world) :
  NoDup (fst <$> d) ->
  (forall h h', strftime_now sys h = strftime_now sys h') ->
  exists k st' w' evs,
    assignment_pass sys cfg (pending_jobs jobs)
      {| all_jobs := jobs; free_mem_dict := d; assigned_any_job := false |} w
      = (Ok st', w') /\
    trace w' = trace w ++ evs /\
    assignment_events (take k (pending_jobs jobs)) evs /\
    (forall c g log, EPopen c g log ∈ evs -> log = job_log sys cfg w) /\
    (forall pj, pj ∈ take k (pending_jobs jobs) ->
       exists J, all_jobs st' !! fst pj = Some J /\
                 log_file J = Some (job_log sys cfg w)).
Proof.
  intros Hnd Hclock.
  assert (Hlog : forall w0, job_log sys cfg w0 = job_log sys cfg w).
  { intros w0. unfold job_log. by rewrite (Hclock (trace w0) (trace w)). }
  set (st := {| all_jobs := jobs; free_mem_dict := d; assigned_any_job := false |}).
  assert (Hv : valid_pass (pending_jobs jobs) st) by (split; [apply pending_jobs_valid|done]).
  destruct (assignment_pass_run sys cfg _ st w Hv) as (k & st' & w' & Hrun & Hrel).
  destruct (pass_run_events _ _ _ _ _ _ _ _ Hrel (pending_jobs_valid jobs))
    as (evs & Htr & Hevs & _).
  exists k, st', w', evs. split; [exact Hrun|]. split; [exact Htr|]. split; [exact Hevs|].
  split.
  - intros c g log Hin.
    destruct (pass_run_logs _ _ _ _ _ _ Hrel evs c g log Htr Hin) as (w0 & ->).
    apply Hlog.
  - intros pj Hpj.
    destruct (pass_run_assigned _ _ _ _ _ _ _ _ Hrel (pending_jobs_NoDup jobs)
                (pending_jobs_valid jobs) pj Hpj) as (w0 & g & HJ).
    eexists. split; [exact HJ|]. simpl. by rewrite Hlog.
Qed.

(** X11.  A cycle on a ledger that has a running record without a pid,
    after running records that have one, raises TypeError (from
    [os.waitpid(None, ...)]) without writing the ledger file or starting a
    process.  The start-up reconciliation marks such a record failed. *)
Theorem running_record_without_pid_raises (w : world) (pre post : list job) (j : job) :
  ledger_of w = pre ++ j :: post ->
  Forall has_handle pre ->
  status j = "running" -> pid j = None ->
  (exists w', cycle sys cfg w = (Raise TypeError, w') /\
              jobs_file w' = jobs_file w /\
              exists evs, trace w' = trace w ++ evs /\
                          Forall (fun e => launches_or_writes e = false) evs) /\
  (forall w0, reconcile_startup_job sys j w0 = (Ok (set_status "failed" j), w0)).
Proof.
  intros Hled Hpre Hst Hpid. split.
  - destruct (reconcile_running_steps sys pre false w Hpre)
      as (pre' & c & w1 & Hrun & _ & _ & _ & Hext & _).
    assert (Hj : reconcile_running_job sys j w1 = (Raise TypeError, w1)).
    { unfold reconcile_running_job. rewrite Hst, Hpid, String.eqb_refl. reflexivity. }
    exists w1. split; [|destruct Hext as (? & _ & ?); done].
    unfold cycle, refresh_jobs. rewrite !bind_run, load_jobs_run. cbv beta iota.
    rewrite bind_run, Hled, reconcile_running_app, Hrun. cbv beta iota.
    simpl reconcile_running. rewrite bind_run, Hj. reflexivity.
  - intros w0. unfold reconcile_startup_job. rewrite Hst, Hpid, String.eqb_refl.
    reflexivity.
Qed.

End Misc.

(** X13.  Loading after [rewrite_jobs_file] gives back the list that was
    written, whatever the file held before; and a record saved after the
    rewrite is loaded last. *)
Theorem rewrite_then_load (all_jobs : list job) (w : world) :
  fst (load_jobs (snd (rewrite_jobs_file all_jobs w))) = Ok all_jobs /\
  (forall j, fst (load_jobs (snd (save_job j (snd (rewrite_jobs_file all_jobs w)))))
             = Ok (all_jobs ++ [j])).
Proof.
  split.
  - rewrite load_jobs_run. simpl. f_equal. apply ledger_of_written. reflexivity.
  - intros j. rewrite load_jobs_run. simpl. f_equal. apply ledger_of_written.
    simpl. by rewrite fmap_app.
Qed.


Lemma insert_desc_perm x l : insert_desc x l ≡ₚ x :: l.
Proof.
  induction l as [|y l IH]; simpl; [done|].
  destruct (Qle_bool (snd y) (snd x)); [done|].
  rewrite IH. apply Permutation_swap.
Qed.

Lemma insert_desc_sorted x l :
  StronglySorted (fun a b : Z * Q => (snd b <= snd a)%Q) l ->
  StronglySorted (fun a b : Z * Q => (snd b <= snd a)%Q) (insert_desc x l).
Proof.
  induction 1 as [|y l Hs IH Hy]; simpl; [repeat constructor|].
  destruct (Qle_bool (snd y) (snd x)) eqn:Hle.
  - apply Qle_bool_iff in Hle. constructor; [by constructor|].
    constructor; [done|]. eapply Forall_impl; [exact Hy|].
    simpl. intros z Hz. by eapply Qle_trans.
  - constructor; [exact IH|]. rewrite insert_desc_perm.
    constructor; [|exact Hy]. simpl.
    apply Qlt_le_weak, Qnot_le_lt. rewrite <- Qle_bool_iff, Hle. done.
Qed.

Lemma insert_desc_filter v x l :
  filter (fun a : Z * Q => Qeq_bool (snd a) v) (insert_desc x l)
  = filter (fun a : Z * Q => Qeq_bool (snd a) v) (x :: l).
Proof.
  induction l as [|y l IH]; simpl; [done|].
  destruct (Qle_bool (snd y) (snd x)) eqn:Hle; [done|].
  rewrite filter_cons, IH, !filter_cons.
  destruct (decide (Qeq_bool (snd y) v)) as [Hy|Hy]; [|done].
  destruct (decide (Qeq_bool (snd x) v)) as [Hx|Hx]; [|done].
  exfalso. apply Is_true_true, Qeq_bool_iff in Hy, Hx.
  assert (Qle_bool (snd y) (snd x) = true); [|congruence].
  apply Qle_bool_iff. rewrite Hy, Hx. apply Qle_refl.
Qed.

(** X15.  The sort of the suitable devices is a stable sort in descending
    order of free memory: the result is a permutation of the list, no entry
    has more free memory than an entry before it, and the entries of equal
    free memory are in the order they had in the list. *)
Theorem sort_desc_stable (l : list (Z * Q)) :
  sort_desc l ≡ₚ l /\
  StronglySorted (fun a b : Z * Q => (snd b <= snd a)%Q) (sort_desc l) /\
  forall v : Q,
    filter (fun a : Z * Q => Qeq_bool (snd a) v) (sort_desc l)
    = filter (fun a : Z * Q => Qeq_bool (snd a) v) l.
Proof.
  induction l as [|x l (Hperm & Hsorted & Hstable)]; [repeat split; constructor|].
  change (sort_desc (x :: l)) with (insert_desc x (sort_desc l)).
  split; [by rewrite insert_desc_perm, Hperm|].
  split; [by apply insert_desc_sorted|].
  intros v. rewrite insert_desc_filter, !filter_cons, Hstable. done.
Qed.

Section Idle.
Variable sys : system.
Variable cfg : config.

End Idle.

Lemma split_comma_nonempty s : split_comma s <> [].
Proof.
  induction s as [|c s IH]; simpl; [done|].
  destruct (Ascii.eqb c ","); [done|]. by destruct (split_comma s).
Qed.

Lemma split_comma_app a b :
  split_comma (a +:+ "," +:+ b) = split_comma a ++ split_comma b.
Proof.
  induction a as [|c a IH]; simpl; [done|].
  destruct (Ascii.eqb c ","); [by rewrite IH|].
  rewrite IH. pose proof (split_comma_nonempty a).
  by destruct (split_comma a).
Qed.

Lemma split_comma_pieces s : Forall (fun piece => has_comma piece = false) (split_comma s).
Proof.
  induction s as [|c s IH]; simpl; [by repeat constructor|].
  destruct (Ascii.eqb c ",") eqn:Hc; [by constructor|].
  pose proof (split_comma_nonempty s).
  destruct (split_comma s) as [|piece pieces]; [done|].
  apply Forall_cons in IH as [Hp Hps]. constructor; [|done]. simpl. by rewrite Hc.
Qed.

Lemma join_split_comma s : join_comma (split_comma s) = s.
Proof.
  induction s as [|c s IH]; simpl; [done|].
  destruct (Ascii.eqb c ",") eqn:Hc.
  - apply Ascii.eqb_eq in Hc. subst c.
    pose proof (split_comma_nonempty s).
    destruct (split_comma s) as [|piece pieces] eqn:Hs; [done|].
    simpl in *. by rewrite IH.
  - pose proof (split_comma_nonempty s).
    destruct (split_comma s) as [|piece pieces] eqn:Hs; [done|].
    destruct pieces as [|p2 ps]; simpl in *; by rewrite <- IH.
Qed.

Section LoadConfigProps.
Variable Y : Type.
Variable path_exists : string -> bool.
Variable yaml_safe_load : string -> option (gmap string Y).
Variable py_int : string -> option Z.

Lemma override_lookup {A} key (arg : option A) convert
    (config config' : gmap string (value Y)) (k : string) :
  override Y key arg convert config = Some config' ->
  config' !! k =
    if decide (k = key)
    then match arg with Some a => convert a | None => config !! key end
    else config !! k.
Proof.
  unfold override. destruct arg as [a|].
  - destruct (convert a) as [v|] eqn:Hv; [|done]. intros [= <-].
    destruct (decide (k = key)) as [->|Hne].
    + by rewrite lookup_insert_eq.
    + by rewrite lookup_insert_ne.
  - intros [= <-]. destruct (decide (k = key)) as [->|]; done.
Qed.


Lemma base_lookup config_file k :
  ((VYaml <$> file_config Y path_exists yaml_safe_load config_file)
     ∪ DEFAULT_CONFIG_dict Y) !! k = base_value Y path_exists yaml_safe_load config_file k.
Proof.
  unfold base_value. rewrite lookup_union, lookup_fmap.
  destruct (file_config _ _ _ _ !! k); simpl; [|by rewrite (left_id None _)].
  by destruct (DEFAULT_CONFIG_dict Y !! k).
Qed.

(** X16.  In the configuration that [load_config] returns, each of the six
    keys has the value given on the command line when the option is given
    (converted with [int] for the device ids, the threshold and the poll
    interval), else the value of the configuration file when the file has
    the key, else the default.  Any other key has the value of the file. *)
Theorem load_config_precedence (config_file : option string) (a : cli_args)
    (config : gmap string (value Y)) :
  load_config Y path_exists yaml_safe_load py_int config_file (Some a) = inr config ->
  config !! "gpu_ids" =
    match arg_gpu_ids a with
    | Some s => VInts <$> mapM py_int (split_comma s)
    | None => base_value Y path_exists yaml_safe_load config_file "gpu_ids"
    end /\
  config !! "min_free_mem_mb" =
    match arg_min_free_mem_mb a with
    | Some s => VInt <$> py_int s
    | None => base_value Y path_exists yaml_safe_load config_file "min_free_mem_mb"
    end /\
  config !! "poll_interval" =
    match arg_poll_interval a with
    | Some s => VInt <$> py_int s
    | None => base_value Y path_exists yaml_safe_load config_file "poll_interval"
    end /\
  config !! "commands_file" =
    match arg_commands_file a with
    | Some s => Some (VStr s)
    | None => base_value Y path_exists yaml_safe_load config_file "commands_file"
    end /\
  config !! "log_dir" =
    match arg_log_dir a with
    | Some s => Some (VStr s)
    | None => base_value Y path_exists yaml_safe_load config_file "log_dir"
    end /\
  config !! "jobs_file" =
    match arg_jobs_file a with
    | Some s => Some (VStr s)
    | None => base_value Y path_exists yaml_safe_load config_file "jobs_file"
    end /\
  forall k : string,
    k ∉ ["gpu_ids"; "min_free_mem_mb"; "poll_interval"; "commands_file";
         "log_dir"; "jobs_file"] ->
    config !! k = base_value Y path_exists yaml_safe_load config_file k.
Proof.
  unfold load_config. intros H.
  destruct (override Y "gpu_ids" _ _ _) as [c1|] eqn:H1; simpl in H; [|done].
  destruct (override Y "min_free_mem_mb" _ _ _) as [c2|] eqn:H2; simpl in H; [|done].
  destruct (override Y "poll_interval" _ _ _) as [c3|] eqn:H3; simpl in H; [|done].
  destruct (override Y "commands_file" _ _ _) as [c4|] eqn:H4; simpl in H; [|done].
  destruct (override Y "log_dir" _ _ _) as [c5|] eqn:H5; simpl in H; [|done].
  destruct (override Y "jobs_file" _ _ _) as [c6|] eqn:H6; simpl in H; [|done].
  injection H as <-.
  assert (Hall : forall k, c6 !! k =
    if decide (k = "jobs_file") then match arg_jobs_file a with Some s => Some (VStr s) | None => c5 !! "jobs_file" end else
    if decide (k = "log_dir") then match arg_log_dir a with Some s => Some (VStr s) | None => c4 !! "log_dir" end else
    if decide (k = "commands_file") then match arg_commands_file a with Some s => Some (VStr s) | None => c3 !! "commands_file" end else
    if decide (k = "poll_interval") then match arg_poll_interval a with Some s => VInt <$> py_int s | None => c2 !! "poll_interval" end else
    if decide (k = "min_free_mem_mb") then match arg_min_free_mem_mb a with Some s => VInt <$> py_int s | None => c1 !! "min_free_mem_mb" end else
    if decide (k = "gpu_ids") then match arg_gpu_ids a with Some s => VInts <$> mapM py_int (split_comma s) | None => base_value Y path_exists yaml_safe_load config_file "gpu_ids" end else
    base_value Y path_exists yaml_safe_load config_file k).
  { intros k.
    rewrite (override_lookup _ _ _ _ _ k H6). destruct (decide (k = "jobs_file")); [done|].
    rewrite (override_lookup _ _ _ _ _ k H5). destruct (decide (k = "log_dir")); [done|].
    rewrite (override_lookup _ _ _ _ _ k H4). destruct (decide (k = "commands_file")); [done|].
    rewrite (override_lookup _ _ _ _ _ k H3). destruct (decide (k = "poll_interval")); [done|].
    rewrite (override_lookup _ _ _ _ _ k H2). destruct (decide (k = "min_free_mem_mb")); [done|].
    rewrite (override_lookup _ _ _ _ _ k H1). rewrite !base_lookup.
    reflexivity. }
  assert (Hc1 : forall k, k <> "gpu_ids" -> c1 !! k = base_value Y path_exists yaml_safe_load config_file k).
  { intros k Hk. rewrite (override_lookup _ _ _ _ _ k H1), !base_lookup.
    by rewrite decide_False. }
  assert (Hc2 : forall k, k <> "gpu_ids" -> k <> "min_free_mem_mb" ->
                          c2 !! k = base_value Y path_exists yaml_safe_load config_file k).
  { intros k Hk Hk2. rewrite (override_lookup _ _ _ _ _ k H2).
    rewrite decide_False by done. by apply Hc1. }
  assert (Hc3 : forall k, k <> "gpu_ids" -> k <> "min_free_mem_mb" ->
                          k <> "poll_interval" -> c3 !! k = base_value Y path_exists yaml_safe_load config_file k).
  { intros k Hk Hk2 Hk3. rewrite (override_lookup _ _ _ _ _ k H3).
    rewrite decide_False by done. by apply Hc2. }
  assert (Hc4 : forall k, k <> "gpu_ids" -> k <> "min_free_mem_mb" ->
                          k <> "poll_interval" -> k <> "commands_file" ->
                          c4 !! k = base_value Y path_exists yaml_safe_load config_file k).
  { intros k Hk Hk2 Hk3 Hk4. rewrite (override_lookup _ _ _ _ _ k H4).
    rewrite decide_False by done. by apply Hc3. }
  assert (Hc5 : forall k, k <> "gpu_ids" -> k <> "min_free_mem_mb" ->
                          k <> "poll_interval" -> k <> "commands_file" ->
                          k <> "log_dir" -> c5 !! k = base_value Y path_exists yaml_safe_load config_file k).
  { intros k Hk Hk2 Hk3 Hk4 Hk5. rewrite (override_lookup _ _ _ _ _ k H5).
    rewrite decide_False by done. by apply Hc4. }
  repeat split.
  - rewrite Hall. repeat (destruct (decide _); [done|]). done.
  - rewrite Hall. repeat (destruct (decide _) as [|_]; [done|]).
    destruct (decide _); [|done]. destruct (arg_min_free_mem_mb a); [done|]. by apply Hc1.
  - rewrite Hall. repeat (destruct (decide _) as [|_]; [done|]).
    destruct (decide _); [|done]. destruct (arg_poll_interval a); [done|]. by apply Hc2.
  - rewrite Hall. repeat (destruct (decide _) as [|_]; [done|]).
    destruct (decide _); [|done]. destruct (arg_commands_file a); [done|]. by apply Hc3.
  - rewrite Hall. repeat (destruct (decide _) as [|_]; [done|]).
    destruct (decide _); [|done]. destruct (arg_log_dir a); [done|]. by apply Hc4.
  - rewrite Hall. destruct (decide _); [|done]. destruct (arg_jobs_file a); [done|].
    by apply Hc5.
  - intros k Hk. rewrite Hall.
    repeat (destruct (decide _) as [->|_];
            [exfalso; apply Hk; repeat (first [by left | right])|]).
    done.
Qed.


(** X18.  The pieces of [s.split(",")] joined with commas give [s] back;
    no piece has a comma; there is at least one piece; and the pieces of
    [a + "," + b] are the pieces of [a] followed by the pieces of [b]. *)
Theorem split_comma_join (s : string) :
  join_comma (split_comma s) = s /\
  Forall (fun piece => has_comma piece = false) (split_comma s) /\
  split_comma s <> [] /\
  forall a b, split_comma (a +:+ "," +:+ b) = split_comma a ++ split_comma b.
Proof.
  split; [apply join_split_comma|]. split; [apply split_comma_pieces|].
  split; [apply split_comma_nonempty|]. apply split_comma_app.
Qed.
End LoadConfigProps.

Lemma load_config_precedence_witness :
  let file := fun _ : string => Some ({["poll_interval" := 5]} : gmap string Z) in
  exists config,
    load_config Z (fun _ => true) file digits_int (Some "c.yaml") (Some example_args)
      = inr config /\
    config !! "gpu_ids" = Some (VInts [0; 1]) /\
    config !! "poll_interval" = Some (VYaml 5) /\
    config !! "commands_file" = Some (VStr "todo.txt") /\
    config !! "log_dir" = Some (VStr "./logs").
Proof.
  intros file.
  destruct (load_config Z (fun _ => true) file digits_int (Some "c.yaml")
              (Some example_args)) as [e|config] eqn:Hload;
    [vm_compute in Hload; discriminate|].
  exists config. split; [reflexivity|].
  destruct (load_config_precedence Z (fun _ => true) file digits_int
              (Some "c.yaml") example_args config Hload)
    as (H1 & _ & H3 & H4 & H5 & _).
  split; [exact H1|]. split; [exact H3|]. split; [exact H4|exact H5].
Defined.



Section Allowed.
Variable sys : system.
Variable cfg : config.



End Allowed.

(** ** Instances of the properties that have hypotheses *)

Lemma cycles_keep_settled_records_witness :
  let ledger := [set_status "failed" (running_job "x" 4001 0); pending_job "a"] in
  Forall has_handle (ledger_of (world_of ledger None)) /\
  exists w',
    cycles two_gpus DEFAULT_CONFIG 2 (world_of ledger None) = (Ok tt, w') /\
    ledger_of w' !! 0%nat = Some (set_status "failed" (running_job "x" 4001 0)).
Proof.
  intros ledger.
  assert (Hwf : Forall has_handle (ledger_of (world_of ledger None))).
  { repeat (apply Forall_cons_2; [intros H; discriminate H|]). apply Forall_nil_2. }
  split; [exact Hwf|].
  destruct (cycles_keep_settled_records two_gpus DEFAULT_CONFIG 2 (world_of ledger None) Hwf)
    as (w' & Hrun & _ & Hrec).
  exists w'. split; [exact Hrun|].
  destruct (Hrec 0%nat (set_status "failed" (running_job "x" 4001 0)) eq_refl)
    as (j' & Hj' & _ & _ & Hsame).
  rewrite Hj'. f_equal. apply Hsame; discriminate.
Defined.


Lemma blocked_cycles_only_sleep_witness :
  let w := world_of [pending_job "a"] None in
  Forall (fun j => status j <> "running") (ledger_of w) /\
  (forall h g bytes, mem_free low_gpus h g = Some bytes ->
     ~ (min_free_mem_mb DEFAULT_CONFIG <= inject_Z bytes / 1024 / 1024)%Q) /\
  exists w', cycles low_gpus DEFAULT_CONFIG 2 w = (Ok tt, w') /\
             ledger_of w' = [pending_job "a"].
Proof.
  intros w.
  assert (H1 : Forall (fun j => status j <> "running") (ledger_of w)).
  { apply Forall_cons_2; [discriminate|apply Forall_nil_2]. }
  assert (H2 : forall h g bytes, mem_free low_gpus h g = Some bytes ->
     ~ (min_free_mem_mb DEFAULT_CONFIG <= inject_Z bytes / 1024 / 1024)%Q).
  { intros h g bytes. simpl. destruct ((0 <=? g) && (g <? 2)); [|discriminate].
    intros [= <-]. by vm_compute. }
  split; [exact H1|]. split; [exact H2|].
  destruct (blocked_cycles_only_sleep low_gpus DEFAULT_CONFIG 2 w H1 H2)
    as (w' & evs & Hrun & _ & Hled & _).
  exists w'. split; [exact Hrun|exact Hled].
Defined.


Lemma nonpositive_threshold_never_blocks_witness :
  let jobs := [pending_job "a"; pending_job "b"; pending_job "c"] in
  let d := [(0, 8000%Q)] in
  NoDup (fst <$> d) /\ (min_free_mem_mb zero_threshold <= 0)%Q /\
  (exists x, x ∈ d /\ (min_free_mem_mb zero_threshold <= snd x)%Q) /\
  exists st' w' evs,
    assignment_pass two_gpus zero_threshold (pending_jobs jobs)
      {| all_jobs := jobs; free_mem_dict := d; assigned_any_job := false |}
      (world_of jobs None) = (Ok st', w') /\
    assignment_events (pending_jobs jobs) evs.
Proof.
  intros jobs d.
  assert (Hnd : NoDup (fst <$> d)) by apply NoDup_singleton.
  assert (Hthr : (min_free_mem_mb zero_threshold <= 0)%Q) by (by vm_compute).
  assert (Hs : exists x, x ∈ d /\ (min_free_mem_mb zero_threshold <= snd x)%Q).
  { exists (0, 8000%Q). split; [by left|by vm_compute]. }
  split; [exact Hnd|]. split; [exact Hthr|]. split; [exact Hs|].
  destruct (nonpositive_threshold_never_blocks two_gpus zero_threshold jobs d
              (world_of jobs None) Hnd Hthr Hs) as (st' & w' & evs & Hrun & _ & Hev & _).
  by exists st', w', evs.
Defined.

Lemma same_second_same_log_file_witness :
  let jobs := [pending_job "a"; pending_job "b"] in
  let d := [(0, 8000%Q); (1, 10000%Q)] in
  NoDup (fst <$> d) /\
  (forall h h', strftime_now two_gpus h = strftime_now two_gpus h') /\
  exists st' w' evs,
    assignment_pass two_gpus DEFAULT_CONFIG (pending_jobs jobs)
      {| all_jobs := jobs; free_mem_dict := d; assigned_any_job := false |}
      (world_of jobs None) = (Ok st', w') /\
    trace w' = trace (world_of jobs None) ++ evs /\
    forall c g log, EPopen c g log ∈ evs ->
      log = job_log two_gpus DEFAULT_CONFIG (world_of jobs None).
Proof.
  intros jobs d.
  assert (Hnd : NoDup (fst <$> d)).
  { csimpl. apply NoDup_cons. split; [|apply NoDup_singleton].
    intros E%list_elem_of_singleton. discriminate. }
  assert (Hclock : forall h h', strftime_now two_gpus h = strftime_now two_gpus h')
    by reflexivity.
  split; [exact Hnd|]. split; [exact Hclock|].
  destruct (same_second_same_log_file two_gpus DEFAULT_CONFIG jobs d
              (world_of jobs None) Hnd Hclock)
    as (k & st' & w' & evs & Hrun & Htr & _ & Hlog & _).
  by exists st', w', evs.
Defined.

Lemma running_record_without_pid_raises_witness :
  let j := set_status "running" (pending_job "x") in
  let w := world_of [j] None in
  ledger_of w = [] ++ j :: [] /\ Forall has_handle [] /\
  status j = "running" /\ pid j = None /\
  exists w', cycle two_gpus DEFAULT_CONFIG w = (Raise TypeError, w') /\
             jobs_file w' = jobs_file w.
Proof.
  intros j w.
  split; [reflexivity|]. split; [apply Forall_nil_2|]. split; [reflexivity|].
  split; [reflexivity|].
  destruct (running_record_without_pid_raises two_gpus DEFAULT_CONFIG w [] [] j
              eq_refl (Forall_nil_2 _) eq_refl eq_refl) as [(w' & Hrun & Hjf & _) _].
  by exists w'.
Defined.



